(** * Segment repairer (satellite/repair/repairer): a shallow embedding

    The development follows [SegmentRepairer.Repair] and its helpers
    [NewSegmentRepairer], [sliceToSet] and [createBucketID].  The services the
    repairer talks to (metainfo, overlay, orders, the erasure-coding
    transfer engine) are collaborators: their answers are fields of an
    environment record, and every call the repairer makes is logged in a
    trace so that statements such as "no upload happened" can be read off
    the result. *)

From Stdlib Require Import ZArith List Bool Ascii String Lia.
From Corelib Require Import SpecFloat.
From stdpp Require Import base option list gmap strings.

Local Open Scope Z_scope.

(** ** Machine integers *)

Module GoInt.

(** Two's-complement wrap-around of [z] to a signed [w]-bit integer. *)
Definition wrap (w : Z) (z : Z) : Z :=
  (z + 2 ^ (w - 1)) mod 2 ^ w - 2 ^ (w - 1).

Definition int32 (z : Z) : Z := wrap 32 z.
Definition int64 (z : Z) : Z := wrap 64 z.
(** Go's [int] on the 64-bit platforms the satellite runs on. *)
Definition int (z : Z) : Z := wrap 64 z.

Definition MaxInt32 : Z := 2147483647.
Definition MinInt32 : Z := -2147483648.
Definition MaxInt64 : Z := 9223372036854775807.
Definition MinInt64 : Z := -9223372036854775808.

(** [z] is a value of type int32. *)
Definition fits32 (z : Z) : Prop := MinInt32 <= z <= MaxInt32.

(** [len(xs)] *)
Definition len {A} (xs : list A) : Z := Z.of_nat (length xs).

End GoInt.
Export GoInt.

(** ** float64

    IEEE 754 binary64 through the executable specification of the
    standard library, rounding to nearest even as Go does. *)

Module F64.

Definition prec : Z := 53.
Definition emax : Z := 1024.

Abbreviation float64 := spec_float.

Definition of_Z (z : Z) : float64 := binary_normalize prec emax z 0 false.
Definition add : float64 -> float64 -> float64 := SFadd prec emax.
Definition mul : float64 -> float64 -> float64 := SFmul prec emax.
Definition div : float64 -> float64 -> float64 := SFdiv prec emax.
Definition ltb : float64 -> float64 -> bool := SFltb.

Definition zero : float64 := S754_zero false.
Definition one : float64 := of_Z 1.

(** The exact integer [ceil (m * 2^e)] for a mantissa [m] (signed). *)
Definition ceil_scaled (m e : Z) : Z :=
  if 0 <=? e then m * 2 ^ e else - ((- m) / 2 ^ (- e)).

(** The exact integer obtained by dropping the fraction of [m * 2^e]. *)
Definition trunc_scaled (m e : Z) : Z :=
  if 0 <=? e then m * 2 ^ e else Z.quot m (2 ^ (- e)).

(** [math.Ceil]: zeros, infinities and NaN are returned unchanged. *)
Definition Ceil (x : float64) : float64 :=
  match x with
  | S754_finite s m e =>
      let c := ceil_scaled (cond_Zopp s (Zpos m)) e in
      if c =? 0 then S754_zero s else of_Z c
  | _ => x
  end.

(** The conversions [int(f)] and [int64(f)]: the fraction is dropped.  A
    value outside the 64-bit range (or NaN) has no defined result in Go;
    amd64 yields the smallest integer, which is what is written here. *)
Definition to_int64 (x : float64) : Z :=
  match x with
  | S754_zero _ => 0
  | S754_finite s m e =>
      let t := trunc_scaled (cond_Zopp s (Zpos m)) e in
      if (MinInt64 <=? t) && (t <=? MaxInt64) then t else MinInt64
  | _ => MinInt64
  end.

End F64.
Export F64.

(** ** time.Time and time.Duration *)

Module GoTime.

(** An instant, in nanoseconds since the zero [time.Time]
    (January 1, year 1, 00:00:00 UTC).  The values handled here come out
    of the pointer or out of [time.Now().UTC()] and carry no monotonic
    reading. *)
Definition Time : Type := Z.
(** A [time.Duration]: a signed 64-bit count of nanoseconds. *)
Definition Duration : Type := Z.

Definition minDuration : Duration := MinInt64.
Definition maxDuration : Duration := MaxInt64.
Definition Second : Duration := 1000000000.

Definition IsZero (t : Time) : bool := t =? 0.
Definition Before (t u : Time) : bool := t <? u.

(** [t.Sub(u)]: the difference, saturated at the ends of [Duration]. *)
Definition Sub (t u : Time) : Duration :=
  if (minDuration <=? t - u) && (t - u <=? maxDuration) then t - u
  else if Before t u then minDuration else maxDuration.

(** [time.Since(t)] read at the instant [now]. *)
Definition Since (now t : Time) : Duration := Sub now t.

(** [d.Seconds()] *)
Definition Seconds (d : Duration) : float64 :=
  let sec := Z.quot d Second in
  let nsec := Z.rem d Second in
  F64.add (F64.of_Z sec) (F64.div (F64.of_Z nsec) (F64.of_Z 1000000000)).

End GoTime.
Export GoTime.

(** ** storj.Path *)

Module Paths.

Definition Path : Type := string.

Definition slash : ascii := "/"%char.

(** [storj.SplitPath(path)], which is [strings.Split(path, "/")]: the
    components between the slashes, empty ones included; the empty path
    has the single component [""]. *)
Fixpoint SplitPath (path : Path) : list string :=
  match path with
  | EmptyString => [EmptyString]
  | String c rest =>
      if Ascii.eqb c slash then EmptyString :: SplitPath rest
      else match SplitPath rest with
           | comp :: comps => String c comp :: comps
           | [] => [String c EmptyString]
           end
  end.

(** [storj.JoinPaths(a, b)], which is [strings.Join([a, b], "/")]. *)
Definition JoinPaths (a b : Path) : Path :=
  (a ++ String slash b)%string.

End Paths.
Export Paths.

(** ** The pointer (pb.Pointer) and its pieces *)

Definition NodeID : Type := Z.
Definition PieceHash : Type := list Byte.byte.

(** pb.RemotePiece; [Hash] is a pointer in Go, [None] stands for nil. *)
Record RemotePiece := {
  PieceNum : Z;
  NodeId : NodeID;
  Hash : option PieceHash;
}.

(** pb.RedundancyScheme; the counts are int32. *)
Record RedundancyScheme := {
  MinReq : Z;
  Total : Z;
  RepairThreshold : Z;
  SuccessThreshold : Z;
  ErasureShareSize : Z;
}.

Record RemoteSegment := {
  Redundancy : RedundancyScheme;
  RemotePieces : list RemotePiece;
}.

Inductive DataType := Pointer_INLINE | Pointer_REMOTE.

(** pb.Pointer.  [RepairCount] is an int32.  The remote part is kept
    total: [Repair] looks at it only after the pointer has passed the type
    test and the redundancy strategy has been built from it. *)
Record Pointer := {
  Type_ : DataType;
  Remote : RemoteSegment;
  SegmentSize : Z;
  CreationDate : Time;
  ExpirationDate : Time;
  LastRepaired : Time;
  RepairCount : Z;
}.

Definition set_repair_stamp (p : Pointer) (t : Time) (n : Z) : Pointer :=
  {| Type_ := Type_ p; Remote := Remote p; SegmentSize := SegmentSize p;
     CreationDate := CreationDate p; ExpirationDate := ExpirationDate p;
     LastRepaired := t; RepairCount := n |}.

Definition set_pieces (p : Pointer) (ps : list RemotePiece) : Pointer :=
  {| Type_ := Type_ p;
     Remote := {| Redundancy := Redundancy (Remote p); RemotePieces := ps |};
     SegmentSize := SegmentSize p;
     CreationDate := CreationDate p; ExpirationDate := ExpirationDate p;
     LastRepaired := LastRepaired p; RepairCount := RepairCount p |}.

(** ** Errors *)

(** The error classes declared at the top of the file, and the package's
    own [Error] class. *)
Inductive errClass :=
| metainfoGetError
| metainfoPutError
| invalidRepairError
| overlayQueryError
| orderLimitFailureError
| repairReconstructError
| repairPutError
| repairerError.

Record irreparableError := {
  ie_path : Path;
  piecesAvailable : Z;
  piecesRequired : Z;
  segmentInfo : option Pointer;
}.

#[warnings="-register-all"]
Inductive error :=
| External (what : string)
    (** an error value handed back by a collaborator *)
| Classed (c : errClass) (msg : string) (cause : option error)
    (** [class.New(msg, cause)] and [class.Wrap(cause)] *)
| Irreparable (ie : irreparableError)
| Combined (first second : error).

(** [errs.Combine(a, b)] *)
Definition Combine (a b : option error) : option error :=
  match a, b with
  | None, None => None
  | Some e, None => Some e
  | None, Some e => Some e
  | Some e1, Some e2 => Some (Combined e1 e2)
  end.

Definition is_irreparable (e : option error) : bool :=
  match e with Some (Irreparable _) => true | _ => false end.

Definition has_class (c : errClass) (e : option error) : Prop :=
  match e with
  | Some (Classed c' _ _) => c' = c
  | Some (Combined (Classed c' _ _) _) => c' = c
  | _ => False
  end.

(** ** Collaborators *)

Record Node := { Id : NodeID }.

(** An addressed order limit, as far as the repairer is concerned: it is
    created by the orders service and handed on untouched. *)
Record AddressedOrderLimit := { StorageNodeId : NodeID }.
Definition OrderLimits : Type := list (option AddressedOrderLimit).
Definition PiecePrivateKey : Type := Z.

(** The segment content behind the [io.ReadCloser] returned by [ec.Get]. *)
Definition Reader : Type := list Byte.byte.

(** eestream.RedundancyStrategy, of which only the optimal threshold is
    consulted. *)
Record RedundancyStrategy := { OptimalThreshold : Z }.

Record FindStorageNodesRequest := {
  RequestedCount : Z;
  ExcludedIDs : list NodeID;
}.

Inductive AuditOutcome := AuditSuccess | AuditFailure | AuditUnknown.

Record UpdateRequest := {
  ur_NodeID : NodeID;
  IsUp : bool;
  ur_AuditOutcome : AuditOutcome;
}.

(** The metainfo database: one pointer per path. *)
Abbreviation Store := (gmap string Pointer).

(** What the outside world answers during one call of [Repair].  Each
    field stands for one collaborator method and takes the arguments the
    repairer passes; [inl] is the error case. *)
Record Env := {
  (** a failure of [metainfo.Get] other than "not found" *)
  get_fault : option error;
  (** [time.Now().UTC()] at the expiration test *)
  now_at_expiry_check : Time;
  (** the clock read by [time.Since] when the segment age is taken *)
  now_at_age : Time;
  (** [time.Now().UTC()] when [LastRepaired] is stamped *)
  now_at_commit : Time;
  NewRedundancyStrategyFromProto : RedundancyScheme -> error + RedundancyStrategy;
  GetMissingPieces : list RemotePiece -> error + list Z;
  CreateGetRepairOrderLimits :
    list Byte.byte -> Pointer -> list RemotePiece ->
    error + (OrderLimits * PiecePrivateKey);
  FindStorageNodesForRepair : FindStorageNodesRequest -> error + list Node;
  CreatePutRepairOrderLimits :
    list Byte.byte -> Pointer -> OrderLimits -> list Node ->
    error + (OrderLimits * PiecePrivateKey);
  (** [ec.Get]: the reader, the pieces that failed hash verification, and
      the error *)
  ec_Get :
    OrderLimits -> PiecePrivateKey -> RedundancyStrategy -> Z -> Path ->
    Reader * list RemotePiece * option error;
  (** [overlay.BatchUpdateStats]: the node IDs it could not update, and
      the error *)
  BatchUpdateStats : list UpdateRequest -> list NodeID * option error;
  (** [ec.Repair]: per piece number the node that took the piece (or nil),
      and the hashes *)
  ec_Repair :
    OrderLimits -> PiecePrivateKey -> RedundancyStrategy -> Reader ->
    Duration -> Path ->
    error + (list (option Node) * list (option PieceHash));
  (** [segmentReader.Close()] *)
  reader_Close : option error;
  (** a failure of [metainfo.UpdatePieces] *)
  commit_fault :
    Path -> Pointer -> list RemotePiece -> list RemotePiece -> option error;
}.

(** ** Calls and monitoring events, in the order they happen *)

Inductive Event :=
| EvMetainfoGet (path : Path)
| EvMeter (name : string)
| EvIntVal (name : string) (v : Z)
| EvFloatVal (name : string) (v : float64)
| EvGetMissingPieces (pieces : list RemotePiece)
| EvCreateGetRepairOrderLimits (bucketID : list Byte.byte)
    (healthy : list RemotePiece)
| EvFindStorageNodesForRepair (req : FindStorageNodesRequest)
| EvCreatePutRepairOrderLimits (bucketID : list Byte.byte)
    (getLimits : OrderLimits) (newNodes : list Node)
| EvECGet (limits : OrderLimits)
| EvBatchUpdateStats (reqs : list UpdateRequest)
| EvECRepair (limits : OrderLimits)
| EvReaderClose
| EvUpdatePieces (path : Path) (ref : Pointer)
    (toAdd toRemove : list RemotePiece).

(** The events of the categories the specification speaks of. *)
Definition is_node_selection (e : Event) : bool :=
  match e with EvFindStorageNodesForRepair _ => true | _ => false end.
Definition is_authorization (e : Event) : bool :=
  match e with
  | EvCreateGetRepairOrderLimits _ _ | EvCreatePutRepairOrderLimits _ _ _ => true
  | _ => false
  end.
Definition is_download (e : Event) : bool :=
  match e with EvECGet _ => true | _ => false end.
Definition is_upload (e : Event) : bool :=
  match e with EvECRepair _ => true | _ => false end.
Definition is_transfer (e : Event) : bool := is_download e || is_upload e.
Definition is_commit (e : Event) : bool :=
  match e with EvUpdatePieces _ _ _ _ => true | _ => false end.
Definition is_meter (e : Event) : bool :=
  match e with EvMeter _ | EvIntVal _ _ | EvFloatVal _ _ => true | _ => false end.

(** ** The repairer's little monad

    A computation reads and extends the state (the trace and the metainfo
    store) and either goes on with a value, or leaves [Repair] through a
    [return], or panics. *)

Record Result := { shouldDelete : bool; err : option error }.

Record State := { trace : list Event; store : Store }.

Inductive Flow (A : Type) :=
| Continue (a : A)
| Return (r : Result)
| Panic.
Arguments Continue {A} a.
Arguments Return {A} r.
Arguments Panic {A}.

Definition M (A : Type) : Type := State -> State * Flow A.

Definition ret {A} (a : A) : M A := fun s => (s, Continue a).

Definition bind {A B} (m : M A) (k : A -> M B) : M B :=
  fun s =>
    match m s with
    | (s', Continue a) => k a s'
    | (s', Return r) => (s', Return r)
    | (s', Panic) => (s', Panic)
    end.

Notation "'do' x <- m ; k" := (bind m (fun x => k))
  (at level 10, x name, m at level 100, k at level 200, only parsing).
Notation "'do' ' pat <- m ; k" :=
  (bind m (fun x => match x with pat => k end))
  (at level 10, pat pattern, m at level 100, k at level 200, only parsing).
Notation "'run' m ; k" := (bind m (fun _ => k))
  (at level 10, m at level 100, k at level 200, only parsing).

(** [return shouldDelete, err] *)
Definition return_ {A} (del : bool) (e : option error) : M A :=
  fun s => (s, Return {| shouldDelete := del; err := e |}).

Definition panic {A} : M A := fun s => (s, Panic).

Definition emit (e : Event) : M unit :=
  fun s => ({| trace := trace s ++ [e]; store := store s |}, Continue tt).

(** [defer func() { err = errs.Combine(err, segmentReader.Close()) }()]
    around the rest of the function body: on every [return] of the body
    the reader is closed and its error is merged into the named result;
    a panic closes the reader too and goes on unwinding. *)
Definition deferClose (close : option error) (body : M Result) : M Result :=
  fun s =>
    match body s with
    | (s', Continue r) | (s', Return r) =>
        ({| trace := trace s' ++ [EvReaderClose]; store := store s' |},
         Return {| shouldDelete := shouldDelete r;
                   err := Combine (err r) close |})
    | (s', Panic) =>
        ({| trace := trace s' ++ [EvReaderClose]; store := store s' |}, Panic)
    end.

Definition call {A} (e : Event) (answer : A) : M A :=
  run emit e; ret answer.

(** The result [Repair] leaves with; [None] when it panicked. *)
Definition outcome (r : State * Flow Result) : option Result :=
  match snd r with
  | Continue res | Return res => Some res
  | Panic => None
  end.

Definition initial (st : Store) : State := {| trace := []; store := st |}.

(** ** The metainfo service *)

Inductive GetAnswer :=
| GetNotFound
| GetFailed (e : error)
| GetOk (p : Pointer).

(** Modelled from the spec: [metainfo.Service.Get] (satellite/metainfo),
    whose code is not among the files embedded here.  [Get(path)] gives the
    pointer stored under the path, the not-found error when there is none,
    or some other error. *)
Definition metainfo_Get (env : Env) (path : Path) : M GetAnswer :=
  fun s =>
    ({| trace := trace s ++ [EvMetainfoGet path]; store := store s |},
     Continue
       match get_fault env with
       | Some e => GetFailed e
       | None =>
           match store s !! path with
           | Some p => GetOk p
           | None => GetNotFound
           end
       end).

(** The piece numbers of a list of pieces. *)
Definition pieceNums (ps : list RemotePiece) : list Z := map PieceNum ps.

Definition num_in (n : Z) (ns : list Z) : bool :=
  existsb (Z.eqb n) ns.

(** Modelled from the spec: the piece list after the atomic "append
    [toAdd], remove [toRemove]" change.  A piece's identity is its number,
    so a stored piece goes when its number is among those to remove. *)
Definition updatedPieces (stored toAdd toRemove : list RemotePiece)
  : list RemotePiece :=
  List.filter (fun p => negb (num_in (PieceNum p) (pieceNums toRemove))) stored
  ++ toAdd.

(** Modelled from the spec: [metainfo.Service.UpdatePieces]
    (satellite/metainfo), whose code is not among the files embedded here.
    The change is applied to the stored pointer in one step, together with
    the repair time and repair count of the pointer handed in; a failed
    commit leaves the store as it was. *)
Definition metainfo_UpdatePieces (env : Env) (path : Path) (ref : Pointer)
    (toAdd toRemove : list RemotePiece) : M (option error) :=
  fun s =>
    let tr := trace s ++ [EvUpdatePieces path ref toAdd toRemove] in
    match commit_fault env path ref toAdd toRemove with
    | Some e => ({| trace := tr; store := store s |}, Continue (Some e))
    | None =>
        match store s !! path with
        | None =>
            ({| trace := tr; store := store s |},
             Continue (Some (External "segment not found")))
        | Some stored =>
            let committed :=
              set_repair_stamp
                (set_pieces stored
                   (updatedPieces (RemotePieces (Remote stored)) toAdd toRemove))
                (LastRepaired ref) (RepairCount ref) in
            ({| trace := tr; store := <[path := committed]> (store s) |},
             Continue None)
        end
    end.

(** ** The repairer *)

Record SegmentRepairer := {
  timeout : Duration;
  multiplierOptimalThreshold : float64;
  repairOverride : Z;
}.

(** [NewSegmentRepairer]: a negative excess counts as zero. *)
Definition NewSegmentRepairer (timeout : Duration)
    (excessOptimalThreshold : float64) (repairOverride : Z) : SegmentRepairer :=
  let excessOptimalThreshold :=
    if F64.ltb excessOptimalThreshold F64.zero then F64.zero
    else excessOptimalThreshold in
  {| timeout := timeout;
     multiplierOptimalThreshold := F64.add F64.one excessOptimalThreshold;
     repairOverride := repairOverride |}.

(** Reading a Go [map[int32]bool]: an absent key reads as false. *)
Definition index (m : gmap Z bool) (k : Z) : bool := default false (m !! k).

(** [sliceToSet] *)
Definition sliceToSet (slice : list Z) : gmap Z bool :=
  fold_left (fun set value => <[value := true]> set) slice ∅.

(** [createBucketID] *)
Definition createBucketID (path : Path) : error + list Byte.byte :=
  let comps := SplitPath path in
  if len comps <? 3 then
    inl (Classed repairerError "no bucket component in path" None)
  else
    inr (list_byte_of_string
           (JoinPaths (nth 0 comps EmptyString) (nth 2 comps EmptyString))).

(** [numHealthy := len(pieces) - len(missingPieces)]; the difference of
    two slice lengths stays within [int]. *)
Definition numHealthy (pieces : list RemotePiece) (missingPieces : list Z) : Z :=
  len pieces - len missingPieces.

(** The repair threshold in force: the override when it is not zero. *)
Definition effectiveRepairThreshold (repairer : SegmentRepairer)
    (pointer : Pointer) : Z :=
  if repairOverride repairer =? 0
  then RepairThreshold (Redundancy (Remote pointer))
  else int32 (repairOverride repairer).

(** The healthy ratio observed before and after the repair. *)
Definition healthyRatio (n : Z) (pointer : Pointer) : float64 :=
  if Total (Redundancy (Remote pointer)) =? 0 then F64.zero
  else F64.div (F64.of_Z n) (F64.of_Z (Total (Redundancy (Remote pointer)))).

(** The loop over the pointer's pieces that fills [excludeNodeIDs],
    [healthyPieces], [healthyMap] and [unhealthyPieces]. *)
Record Partition := {
  excludeNodeIDs : list NodeID;
  healthyPieces : list RemotePiece;
  healthyMap : gmap Z bool;
  unhealthyPieces : list RemotePiece;
}.

Definition partitionStep (lostPiecesSet : gmap Z bool) (acc : Partition)
    (piece : RemotePiece) : Partition :=
  if negb (index lostPiecesSet (PieceNum piece)) then
    {| excludeNodeIDs := excludeNodeIDs acc ++ [NodeId piece];
       healthyPieces := healthyPieces acc ++ [piece];
       healthyMap := <[PieceNum piece := true]> (healthyMap acc);
       unhealthyPieces := unhealthyPieces acc |}
  else
    {| excludeNodeIDs := excludeNodeIDs acc ++ [NodeId piece];
       healthyPieces := healthyPieces acc;
       healthyMap := healthyMap acc;
       unhealthyPieces := unhealthyPieces acc ++ [piece] |}.

Definition partitionPieces (lostPiecesSet : gmap Z bool)
    (pieces : list RemotePiece) : Partition :=
  fold_left (partitionStep lostPiecesSet) pieces
    {| excludeNodeIDs := []; healthyPieces := []; healthyMap := ∅;
       unhealthyPieces := [] |}.

(** [requestCount]: how many new nodes to ask the overlay for. *)
Definition requestCount (redundancy : RedundancyStrategy)
    (repairer : SegmentRepairer) (healthyPieces : list RemotePiece) : Z :=
  let totalNeeded :=
    F64.Ceil (F64.mul (F64.of_Z (OptimalThreshold redundancy))
                (multiplierOptimalThreshold repairer)) in
  int (F64.to_int64 totalNeeded - len healthyPieces).

(** [updateAuditFailStatus] *)
Definition updateAuditFailStatus (env : Env) (failedAuditNodeIDs : list NodeID)
  : M (Z * option error) :=
  let updateRequests :=
    map (fun nodeID => {| ur_NodeID := nodeID; IsUp := true;
                          ur_AuditOutcome := AuditFailure |})
      failedAuditNodeIDs in
  if 0 <? len updateRequests then
    do '(failed, err) <- call (EvBatchUpdateStats updateRequests)
                           (BatchUpdateStats env updateRequests);
    if negb (bool_decide (err = None)) || (0 <? len failed) then
      ret (len failed,
           Combine
             (Some (Classed repairerError
                      "failed to update some audit fail statuses in overlay"
                      None))
             err)
    else ret (0, None)
  else ret (0, None).

(** The loop over [successfulNodes] that fills [repairedPieces] and
    [repairedMap]; [i] is the index reached.  [hashes[i]] panics when the
    hash slice is too short, which is [None] here. *)
Fixpoint collectRepaired (i : nat) (successfulNodes : list (option Node))
    (hashes : list (option PieceHash))
    (repairedPieces : list RemotePiece) (repairedMap : gmap Z bool)
  : option (list RemotePiece * gmap Z bool) :=
  match successfulNodes with
  | [] => Some (repairedPieces, repairedMap)
  | None :: rest =>
      collectRepaired (S i) rest hashes repairedPieces repairedMap
  | Some node :: rest =>
      match hashes !! i with
      | None => None
      | Some hash =>
          let piece := {| PieceNum := int32 (Z.of_nat i);
                          NodeId := Id node;
                          Hash := hash |} in
          collectRepaired (S i) rest hashes
            (repairedPieces ++ [piece])
            (<[int32 (Z.of_nat i) := true]> repairedMap)
      end
  end.

(** [healthyAfterRepair] *)
Definition healthyAfterRepair (healthyPieces repairedPieces : list RemotePiece)
  : Z :=
  int32 (int (len healthyPieces + len repairedPieces)).

(** The meter marked by the [switch] on [healthyAfterRepair]. *)
Definition outcomeMeter (healthyAfterRepair : Z) (pointer : Pointer) : string :=
  if healthyAfterRepair <=? RepairThreshold (Redundancy (Remote pointer))
  then "repair_failed"
  else if healthyAfterRepair <? SuccessThreshold (Redundancy (Remote pointer))
  then "repair_partial"
  else "repair_success".

(** [toRemove]: all unhealthy pieces after a full repair, otherwise the
    unhealthy pieces whose number was repaired; then the pieces that
    failed hash verification. *)
Definition computeToRemove (healthyAfterRepair : Z) (pointer : Pointer)
    (unhealthyPieces : list RemotePiece) (repairedMap : gmap Z bool)
    (failedPieces : list RemotePiece) : list RemotePiece :=
  (if SuccessThreshold (Redundancy (Remote pointer)) <=? healthyAfterRepair
   then unhealthyPieces
   else List.filter (fun piece => index repairedMap (PieceNum piece))
          unhealthyPieces)
  ++ failedPieces.

(** [segmentAge], with [now] the clock that [time.Since] reads. *)
Definition segmentAge (now : Time) (pointer : Pointer) : Duration :=
  if Before (CreationDate pointer) (LastRepaired pointer)
  then Since now (LastRepaired pointer)
  else Since now (CreationDate pointer).

(** [SegmentRepairer.Repair].  Logging is left out; the monitoring calls
    are kept as events. *)
Definition Repair (env : Env) (repairer : SegmentRepairer) (path : Path)
  : M Result :=
  (* Read the segment pointer from the metainfo *)
  do got <- metainfo_Get env path;
  do pointer <-
    match got with
    | GetNotFound =>
        run emit (EvMeter "repair_unnecessary");
        run emit (EvMeter "segment_deleted_before_repair");
        return_ true None
    | GetFailed e => return_ false (Some (Classed metainfoGetError "" (Some e)))
    | GetOk p => ret p
    end;
  run match Type_ pointer with
      | Pointer_REMOTE => ret tt
      | Pointer_INLINE =>
          return_ true
            (Some (Classed invalidRepairError "cannot repair inline segment" None))
      end;
  run (if negb (IsZero (ExpirationDate pointer))
          && Before (ExpirationDate pointer) (now_at_expiry_check env)
       then run emit (EvMeter "repair_expired"); return_ true None
       else ret tt);
  run emit (EvMeter "repair_attempts");
  run emit (EvIntVal "repair_segment_size" (SegmentSize pointer));
  do redundancy <-
    match NewRedundancyStrategyFromProto env (Redundancy (Remote pointer)) with
    | inl e =>
        return_ true
          (Some (Classed invalidRepairError "invalid redundancy strategy" (Some e)))
    | inr r => ret r
    end;
  let pieces := RemotePieces (Remote pointer) in
  do missing <- call (EvGetMissingPieces pieces) (GetMissingPieces env pieces);
  do missingPieces <-
    match missing with
    | inl e =>
        return_ false
          (Some (Classed overlayQueryError "error identifying missing pieces"
                   (Some e)))
    | inr m => ret m
    end;
  let numHealthy := numHealthy pieces missingPieces in
  (* irreparable piece *)
  run (if int32 numHealthy <? MinReq (Redundancy (Remote pointer)) then
         run emit (EvMeter "repair_nodes_unavailable");
         return_ true
           (Some (Irreparable
                    {| ie_path := path;
                       piecesAvailable := int32 numHealthy;
                       piecesRequired := MinReq (Redundancy (Remote pointer));
                       segmentInfo := Some pointer |}))
       else ret tt);
  let repairThreshold := effectiveRepairThreshold repairer pointer in
  (* repair not needed *)
  run (if repairThreshold <? int32 numHealthy then
         run emit (EvMeter "repair_unnecessary"); return_ true None
       else ret tt);
  run emit (EvFloatVal "healthy_ratio_before_repair"
              (healthyRatio numHealthy pointer));
  let lostPiecesSet := sliceToSet missingPieces in
  let parts := partitionPieces lostPiecesSet pieces in
  do bucketID <-
    match createBucketID path with
    | inl e =>
        return_ true
          (Some (Classed invalidRepairError
                   "invalid path; cannot repair segment" (Some e)))
    | inr b => ret b
    end;
  (* Create the order limits for the GET_REPAIR action *)
  do gets <- call (EvCreateGetRepairOrderLimits bucketID (healthyPieces parts))
               (CreateGetRepairOrderLimits env bucketID pointer
                  (healthyPieces parts));
  do '(getOrderLimits, getPrivateKey) <-
    match gets with
    | inl e =>
        return_ false
          (Some (Classed orderLimitFailureError
                   "could not create GET_REPAIR order limits" (Some e)))
    | inr g => ret g
    end;
  (* Request Overlay for n-h new storage nodes *)
  let request :=
    {| RequestedCount := requestCount redundancy repairer (healthyPieces parts);
       ExcludedIDs := excludeNodeIDs parts |} in
  do found <- call (EvFindStorageNodesForRepair request)
                (FindStorageNodesForRepair env request);
  do newNodes <-
    match found with
    | inl e => return_ false (Some (Classed overlayQueryError "" (Some e)))
    | inr n => ret n
    end;
  (* Create the order limits for the PUT_REPAIR action *)
  do puts <- call (EvCreatePutRepairOrderLimits bucketID getOrderLimits newNodes)
               (CreatePutRepairOrderLimits env bucketID pointer getOrderLimits
                  newNodes);
  do '(putLimits, putPrivateKey) <-
    match puts with
    | inl e =>
        return_ false
          (Some (Classed orderLimitFailureError
                   "could not create PUT_REPAIR order limits" (Some e)))
    | inr p => ret p
    end;
  (* Download the segment using just the healthy pieces *)
  do '(segmentReader, failedPieces, getErr) <-
    call (EvECGet getOrderLimits)
      (ec_Get env getOrderLimits getPrivateKey redundancy (SegmentSize pointer)
         path);
  (* Populate node IDs that failed piece hashes verification *)
  let failedNodeIDs := map NodeId failedPieces in
  (* update audit status for nodes that failed piece hash verification *)
  do _ <- updateAuditFailStatus env failedNodeIDs;
  run match getErr with
      | Some (Irreparable irreparableErr) =>
          run emit (EvMeter "repair_too_many_nodes_failed");
          return_ true
            (Some (Irreparable
                     {| ie_path := ie_path irreparableErr;
                        piecesAvailable := piecesAvailable irreparableErr;
                        piecesRequired := piecesRequired irreparableErr;
                        segmentInfo := Some pointer |}))
      | Some e =>
          return_ true
            (Some (Classed repairReconstructError
                     "segment could not be reconstructed" (Some e)))
      | None => ret tt
      end;
  deferClose (reader_Close env) (
    (* Upload the repaired pieces *)
    do put <- call (EvECRepair putLimits)
                (ec_Repair env putLimits putPrivateKey redundancy segmentReader
                   (timeout repairer) path);
    do '(successfulNodes, hashes) <-
      match put with
      | inl e => return_ false (Some (Classed repairPutError "" (Some e)))
      | inr r => ret r
      end;
    (* Add the successfully uploaded pieces to repairedPieces *)
    do '(repairedPieces, repairedMap) <-
      match collectRepaired 0 successfulNodes hashes [] ∅ with
      | None => panic
      | Some r => ret r
      end;
    let healthyAfterRepair :=
      healthyAfterRepair (healthyPieces parts) repairedPieces in
    run emit (EvMeter (outcomeMeter healthyAfterRepair pointer));
    run emit (EvFloatVal "healthy_ratio_after_repair"
                (healthyRatio healthyAfterRepair pointer));
    let toRemove :=
      computeToRemove healthyAfterRepair pointer (unhealthyPieces parts)
        repairedMap failedPieces in
    let segmentAge := segmentAge (now_at_age env) pointer in
    let pointer :=
      set_repair_stamp pointer (now_at_commit env)
        (int32 (RepairCount pointer + 1)) in
    (* Update the segment pointer in the metainfo *)
    do putErr <- metainfo_UpdatePieces env path pointer repairedPieces toRemove;
    run match putErr with
        | Some e => return_ false (Some (Classed metainfoPutError "" (Some e)))
        | None => ret tt
        end;
    run emit (EvIntVal "segment_time_until_repair"
                (F64.to_int64 (Seconds segmentAge)));
    run emit (EvIntVal "segment_repair_count" (int64 (RepairCount pointer)));
    ret {| shouldDelete := true; err := None |}).

(** ** What a run has been told

    The statements below speak about runs of [Repair] that got a given
    distance into the procedure.  These records collect the answers the
    collaborators gave up to that point. *)

(** The pointer was fetched, is a remote segment that has not expired, its
    redundancy scheme was accepted, and the overlay answered the
    missing-piece query. *)
Record Assessed (env : Env) (st : Store) (path : Path) (pointer : Pointer)
    (redundancy : RedundancyStrategy) (missingPieces : list Z) : Prop := {
  as_get : get_fault env = None;
  as_stored : st !! path = Some pointer;
  as_remote : Type_ pointer = Pointer_REMOTE;
  as_live :
    negb (IsZero (ExpirationDate pointer))
    && Before (ExpirationDate pointer) (now_at_expiry_check env) = false;
  as_redundancy :
    NewRedundancyStrategyFromProto env (Redundancy (Remote pointer))
    = inr redundancy;
  as_missing :
    GetMissingPieces env (RemotePieces (Remote pointer)) = inr missingPieces;
}.

(** The healthy count as [Repair] compares and reports it:
    [int32(numHealthy)]. *)
Definition healthyCount (pointer : Pointer) (missingPieces : list Z) : Z :=
  int32 (numHealthy (RemotePieces (Remote pointer)) missingPieces).

(** The segment is neither irreparable nor above the repair threshold, so
    the repair goes ahead. *)
Record NeedsRepair (repairer : SegmentRepairer) (pointer : Pointer)
    (missingPieces : list Z) : Prop := {
  nr_min :
    MinReq (Redundancy (Remote pointer)) <= healthyCount pointer missingPieces;
  nr_threshold :
    healthyCount pointer missingPieces
    <= effectiveRepairThreshold repairer pointer;
}.

(** The pieces of the pointer, split by the missing-piece answer. *)
Definition partsOf (pointer : Pointer) (missingPieces : list Z) : Partition :=
  partitionPieces (sliceToSet missingPieces) (RemotePieces (Remote pointer)).

(** The request sent to the overlay for replacement nodes. *)
Definition requestOf (repairer : SegmentRepairer) (pointer : Pointer)
    (redundancy : RedundancyStrategy) (missingPieces : list Z)
  : FindStorageNodesRequest :=
  {| RequestedCount :=
       requestCount redundancy repairer
         (healthyPieces (partsOf pointer missingPieces));
     ExcludedIDs := excludeNodeIDs (partsOf pointer missingPieces) |}.

(** The scope identifier was derived, both sets of order limits were
    issued and the overlay named replacement nodes. *)
Record Authorized (env : Env) (repairer : SegmentRepairer) (path : Path)
    (pointer : Pointer) (redundancy : RedundancyStrategy)
    (missingPieces : list Z) (bucketID : list Byte.byte)
    (getOrderLimits : OrderLimits) (getPrivateKey : PiecePrivateKey)
    (newNodes : list Node)
    (putLimits : OrderLimits) (putPrivateKey : PiecePrivateKey) : Prop := {
  au_bucket : createBucketID path = inr bucketID;
  au_get :
    CreateGetRepairOrderLimits env bucketID pointer
      (healthyPieces (partsOf pointer missingPieces))
    = inr (getOrderLimits, getPrivateKey);
  au_nodes :
    FindStorageNodesForRepair env
      (requestOf repairer pointer redundancy missingPieces)
    = inr newNodes;
  au_put :
    CreatePutRepairOrderLimits env bucketID pointer getOrderLimits newNodes
    = inr (putLimits, putPrivateKey);
}.

(** The download succeeded, the upload went through for the nodes in
    [successfulNodes], and the uploaded pieces were collected into
    [repairedPieces] and [repairedMap]. *)
Record Transferred (env : Env) (repairer : SegmentRepairer) (path : Path)
    (pointer : Pointer) (redundancy : RedundancyStrategy)
    (getOrderLimits : OrderLimits) (getPrivateKey : PiecePrivateKey)
    (putLimits : OrderLimits) (putPrivateKey : PiecePrivateKey)
    (segmentReader : Reader) (failedPieces : list RemotePiece)
    (successfulNodes : list (option Node)) (hashes : list (option PieceHash))
    (repairedPieces : list RemotePiece) (repairedMap : gmap Z bool) : Prop := {
  tr_download :
    ec_Get env getOrderLimits getPrivateKey redundancy (SegmentSize pointer)
      path
    = (segmentReader, failedPieces, None);
  tr_upload :
    ec_Repair env putLimits putPrivateKey redundancy segmentReader
      (timeout repairer) path
    = inr (successfulNodes, hashes);
  tr_collected :
    collectRepaired 0 successfulNodes hashes [] ∅
    = Some (repairedPieces, repairedMap);
}.

(** [healthyAfterRepair] for a pointer, a missing-piece answer and the
    repaired pieces. *)
Definition afterRepair (pointer : Pointer) (missingPieces : list Z)
    (repairedPieces : list RemotePiece) : Z :=
  healthyAfterRepair (healthyPieces (partsOf pointer missingPieces))
    repairedPieces.

(** The removal list [Repair] computes from them. *)
Definition removalsOf (pointer : Pointer) (missingPieces : list Z)
    (repairedPieces : list RemotePiece) (repairedMap : gmap Z bool)
    (failedPieces : list RemotePiece) : list RemotePiece :=
  computeToRemove (afterRepair pointer missingPieces repairedPieces) pointer
    (unhealthyPieces (partsOf pointer missingPieces)) repairedMap failedPieces.

(** The pointer's pieces whose number the overlay reported missing, and
    the others. *)
Definition originallyUnhealthy (pointer : Pointer) (missingPieces : list Z)
  : list RemotePiece :=
  List.filter (fun p => num_in (PieceNum p) missingPieces)
    (RemotePieces (Remote pointer)).

Definition originallyHealthy (pointer : Pointer) (missingPieces : list Z)
  : list RemotePiece :=
  List.filter (fun p => negb (num_in (PieceNum p) missingPieces))
    (RemotePieces (Remote pointer)).

(** The pointer as [Repair] hands it to the commit: stamped with the
    commit time and the incremented repair count. *)
Definition stamped (env : Env) (pointer : Pointer) : Pointer :=
  set_repair_stamp pointer (now_at_commit env)
    (int32 (RepairCount pointer + 1)).

(** The events up to and including the missing-piece query. *)
Definition assessTrace (path : Path) (pointer : Pointer) : list Event :=
  [EvMetainfoGet path;
   EvMeter "repair_attempts";
   EvIntVal "repair_segment_size" (SegmentSize pointer);
   EvGetMissingPieces (RemotePieces (Remote pointer))].

(** The audit update that follows the download. *)
Definition auditTrace (failedPieces : list RemotePiece) : list Event :=
  let reqs :=
    map (fun nodeID => {| ur_NodeID := nodeID; IsUp := true;
                          ur_AuditOutcome := AuditFailure |})
      (map NodeId failedPieces) in
  if 0 <? len reqs then [EvBatchUpdateStats reqs] else [].

(** The events from the healthy-ratio observation to the audit update. *)
Definition transferTrace (repairer : SegmentRepairer) (pointer : Pointer)
    (redundancy : RedundancyStrategy) (missingPieces : list Z)
    (bucketID : list Byte.byte) (getOrderLimits : OrderLimits)
    (newNodes : list Node) (failedPieces : list RemotePiece) : list Event :=
  [EvFloatVal "healthy_ratio_before_repair"
     (healthyRatio (numHealthy (RemotePieces (Remote pointer)) missingPieces)
        pointer);
   EvCreateGetRepairOrderLimits bucketID
     (healthyPieces (partsOf pointer missingPieces));
   EvFindStorageNodesForRepair
     (requestOf repairer pointer redundancy missingPieces);
   EvCreatePutRepairOrderLimits bucketID getOrderLimits newNodes;
   EvECGet getOrderLimits]
  ++ auditTrace failedPieces.

(** Modelled from the spec: the download+reconstruct operation of the
    transfer engine ([ECRepairer.Get], whose code is not among the files
    embedded here) is run over the healthy pieces and reports as failed
    only pieces it fetched, so a failed piece never carries a number the
    overlay reported missing. *)
Definition failedWereDownloaded (missingPieces : list Z)
    (failedPieces : list RemotePiece) : Prop :=
  forall p, In p failedPieces -> num_in (PieceNum p) missingPieces = false.

(** A commit that went through: the call is in the trace and the
    metainfo service did not refuse it. *)
Definition successfulCommit (env : Env) (path : Path) (tr : list Event)
  : Prop :=
  exists ref toAdd toRemove,
    In (EvUpdatePieces path ref toAdd toRemove) tr /\
    commit_fault env path ref toAdd toRemove = None.

(** Calls beyond the initial fetch and the missing-piece query. *)
Definition is_further_call (e : Event) : bool :=
  is_node_selection e || is_authorization e || is_transfer e || is_commit e.

(** The calls to collaborators in a trace, monitoring left aside. *)
Definition calls (tr : list Event) : list Event :=
  List.filter (fun e => negb (is_meter e)) tr.

(** The piece numbers added and removed by the commits of a trace. *)
Definition commitDiffs (tr : list Event) : list (list Z * list Z) :=
  flat_map (fun e => match e with
                     | EvUpdatePieces _ _ toAdd toRemove =>
                         [(pieceNums toAdd, pieceNums toRemove)]
                     | _ => []
                     end) tr.

(** The meters marked in a trace. *)
Definition meters (tr : list Event) : list string :=
  flat_map (fun e => match e with EvMeter name => [name] | _ => [] end) tr.

(** ** Reference definitions, written after the specification *)


(** "[age = now − max(lastRepairedTime, creationTime)]" *)
Definition referenceAge (now : Time) (pointer : Pointer) : Duration :=
  Sub now (Z.max (LastRepaired pointer) (CreationDate pointer)).

(** ** A concrete segment

    The scheme of the specification's scenarios: min 3, repair 5,
    success 7, total 10, with ten pieces on nodes 100..109. *)

Module Scenario.

Definition scheme : RedundancyScheme :=
  {| MinReq := 3; Total := 10; RepairThreshold := 5; SuccessThreshold := 7;
     ErasureShareSize := 256 |}.

Definition piece (n : Z) : RemotePiece :=
  {| PieceNum := n; NodeId := 100 + n; Hash := None |}.

Definition slots : list Z := [0; 1; 2; 3; 4; 5; 6; 7; 8; 9].

(** The instant [n] seconds after the zero time. *)
Definition second (n : Z) : Time := n * Second.

Definition pointer (repairCount : Z) : Pointer :=
  {| Type_ := Pointer_REMOTE;
     Remote := {| Redundancy := scheme; RemotePieces := map piece slots |};
     SegmentSize := 1024;
     CreationDate := second 5000;
     ExpirationDate := 0;
     LastRepaired := second 7000;
     RepairCount := repairCount |}.

Definition path : Path := "project/s0/bucket/object".

Definition st (repairCount : Z) : Store := {[ path := pointer repairCount ]}.

(** A path with two components only, and a store that knows it. *)
Definition shortPath : Path := "project/s0".
Definition shortSt : Store := {[ shortPath := pointer 0 ]}.

Definition redundancy : RedundancyStrategy := {| OptimalThreshold := 7 |}.

(** five percent *)
Definition excess : float64 := F64.div (F64.of_Z 5) (F64.of_Z 100).

Definition repairer : SegmentRepairer := NewSegmentRepairer 300 excess 0.

(** A repairer whose override (1) lies below the scheme's minimum. *)
Definition lowOverride : SegmentRepairer := NewSegmentRepairer 300 excess 1.


(** The world: [missing] is the overlay's answer, [uploads] says per
    piece number which node took a repaired piece, [failed] are the
    pieces that failed verification during the download, [findFault] and
    [commitFault] make the node selection or the commit fail. *)
Definition env (missing : list Z) (uploads : list (option Node))
    (failed : list RemotePiece) (findFault commitFault : option error)
  : Env :=
  {| get_fault := None;
     now_at_expiry_check := second 9000;
     now_at_age := second 9100;
     now_at_commit := second 9200;
     NewRedundancyStrategyFromProto := fun _ => inr redundancy;
     GetMissingPieces := fun _ => inr missing;
     CreateGetRepairOrderLimits := fun _ _ healthy =>
       inr (map (fun n => if num_in n (pieceNums healthy)
                          then Some {| StorageNodeId := 100 + n |}
                          else None) slots, 1);
     FindStorageNodesForRepair := fun req =>
       match findFault with
       | Some e => inl e
       | None =>
           inr (map (fun i => {| Id := 200 + Z.of_nat i |})
                  (seq 0 (Z.to_nat (RequestedCount req))))
       end;
     CreatePutRepairOrderLimits := fun _ _ gets _ =>
       inr (map (fun g => match g with
                          | Some _ => None
                          | None => Some {| StorageNodeId := 200 |}
                          end) gets, 2);
     ec_Get := fun _ _ _ _ _ => ([], failed, None);
     BatchUpdateStats := fun _ => ([], None);
     ec_Repair := fun _ _ _ _ _ _ =>
       inr (uploads,
            map (fun u => match u with
                          | Some _ => Some []
                          | None => None
                          end) uploads);
     reader_Close := None;
     commit_fault := fun _ _ _ _ => commitFault |}.

(** The same world, except that the download fails with [e]. *)
Definition failingDownload (e : error) (w : Env) : Env :=
{| get_fault := get_fault w;
   now_at_expiry_check := now_at_expiry_check w;
   now_at_age := now_at_age w;
   now_at_commit := now_at_commit w;
   NewRedundancyStrategyFromProto := NewRedundancyStrategyFromProto w;
   GetMissingPieces := GetMissingPieces w;
   CreateGetRepairOrderLimits := CreateGetRepairOrderLimits w;
   FindStorageNodesForRepair := FindStorageNodesForRepair w;
   CreatePutRepairOrderLimits := CreatePutRepairOrderLimits w;
   ec_Get := fun _ _ _ _ _ => ([], [], Some e);
   BatchUpdateStats := BatchUpdateStats w;
   ec_Repair := ec_Repair w;
   reader_Close := reader_Close w;
   commit_fault := commit_fault w |}.

(** The same world, except that the upload fails with [e]. *)
Definition failingUpload (e : error) (w : Env) : Env :=
{| get_fault := get_fault w;
   now_at_expiry_check := now_at_expiry_check w;
   now_at_age := now_at_age w;
   now_at_commit := now_at_commit w;
   NewRedundancyStrategyFromProto := NewRedundancyStrategyFromProto w;
   GetMissingPieces := GetMissingPieces w;
   CreateGetRepairOrderLimits := CreateGetRepairOrderLimits w;
   FindStorageNodesForRepair := FindStorageNodesForRepair w;
   CreatePutRepairOrderLimits := CreatePutRepairOrderLimits w;
   ec_Get := ec_Get w;
   BatchUpdateStats := BatchUpdateStats w;
   ec_Repair := fun _ _ _ _ _ _ => inl e;
   reader_Close := reader_Close w;
   commit_fault := commit_fault w |}.

Definition newNode (n : Z) : option Node := Some {| Id := 200 + n |}.

(** Three of the six lost pieces are uploaded again (numbers 4, 5, 6). *)
Definition threeUploads : list (option Node) :=
  [None; None; None; None; newNode 4; newNode 5; newNode 6; None; None; None].

(** Only piece number 4 is uploaded again. *)
Definition oneUpload : list (option Node) :=
  [None; None; None; None; newNode 4; None; None; None; None; None].


(** Two of the six lost pieces are uploaded again (numbers 4, 5). *)
Definition twoUploads : list (option Node) :=
  [None; None; None; None; newNode 4; newNode 5; None; None; None; None].

(** The repaired pieces that go with [threeUploads] and [oneUpload]. *)
Definition repairedPiece (n : Z) : RemotePiece :=
  {| PieceNum := n; NodeId := 200 + n; Hash := Some [] |}.

(** Six pieces lost (numbers 4 to 9), nothing else going wrong. *)
Definition sixLost (uploads : list (option Node)) (failed : list RemotePiece)
  : Env :=
  env [4; 5; 6; 7; 8; 9] uploads failed None None.

End Scenario.


(** * Further properties of the repairer: definitions *)

(** ** The script of a run

    The collaborator calls of [Repair], by kind and in the order the
    function body makes them. *)

Inductive CallKind :=
| KGet | KMissing | KGetLimits | KFindNodes | KPutLimits
| KDownload | KAudit | KUpload | KCommit | KClose.

Definition callKind (e : Event) : option CallKind :=
  match e with
  | EvMetainfoGet _ => Some KGet
  | EvGetMissingPieces _ => Some KMissing
  | EvCreateGetRepairOrderLimits _ _ => Some KGetLimits
  | EvFindStorageNodesForRepair _ => Some KFindNodes
  | EvCreatePutRepairOrderLimits _ _ _ => Some KPutLimits
  | EvECGet _ => Some KDownload
  | EvBatchUpdateStats _ => Some KAudit
  | EvECRepair _ => Some KUpload
  | EvUpdatePieces _ _ _ _ => Some KCommit
  | EvReaderClose => Some KClose
  | EvMeter _ | EvIntVal _ _ | EvFloatVal _ _ => None
  end.

Definition is_side_call (k : CallKind) : bool :=
  match k with KAudit | KClose => true | _ => false end.

(** The kinds of the calls in a trace, the audit update and the closing of
    the reader left aside. *)
Definition mainCalls (tr : list Event) : list CallKind :=
  List.filter (fun k => negb (is_side_call k)) (omap callKind tr).

(** The order in which [Repair] makes its main calls. *)
Definition script : list CallKind :=
  [KGet; KMissing; KGetLimits; KFindNodes; KPutLimits; KDownload; KUpload;
   KCommit].

Definition is_close (e : Event) : bool :=
  match e with EvReaderClose => true | _ => false end.

(** The number of slashes in a path. *)
Fixpoint countSlashes (path : Path) : nat :=
  match path with
  | EmptyString => 0
  | String c rest =>
      (if Ascii.eqb c slash then 1 else 0) + countSlashes rest
  end.

(** [strings.Join(comps, "/")] *)
Fixpoint joinAll (comps : list string) : string :=
  match comps with
  | [] => EmptyString
  | [comp] => comp
  | comp :: rest => (comp ++ String slash (joinAll rest))%string
  end.

(** The audit requests [updateAuditFailStatus] builds for a list of nodes. *)
Definition auditRequests (nodeIDs : list NodeID) : list UpdateRequest :=
  map (fun nodeID => {| ur_NodeID := nodeID; IsUp := true;
                        ur_AuditOutcome := AuditFailure |}) nodeIDs.

(** A slot of [successfulNodes] that is not nil. *)
Definition tookPiece (node : option Node) : bool :=
  match node with Some _ => true | None => false end.

(** ** Worlds that differ in one collaborator *)

(** The world [w], except that the metainfo fetch answers [fault]. *)
Definition withGetFault (fault : option error)
    (w : Env) : Env :=
{| get_fault := fault;
   now_at_expiry_check := now_at_expiry_check w;
   now_at_age := now_at_age w;
   now_at_commit := now_at_commit w;
   NewRedundancyStrategyFromProto := NewRedundancyStrategyFromProto w;
   GetMissingPieces := GetMissingPieces w;
   CreateGetRepairOrderLimits := CreateGetRepairOrderLimits w;
   FindStorageNodesForRepair := FindStorageNodesForRepair w;
   CreatePutRepairOrderLimits := CreatePutRepairOrderLimits w;
   ec_Get := ec_Get w;
   BatchUpdateStats := BatchUpdateStats w;
   ec_Repair := ec_Repair w;
   reader_Close := reader_Close w;
   commit_fault := commit_fault w |}.

(** The world [w], except that the clock shows [now] at the expiration test. *)
Definition withExpiryClock (now : Time)
    (w : Env) : Env :=
{| get_fault := get_fault w;
   now_at_expiry_check := now;
   now_at_age := now_at_age w;
   now_at_commit := now_at_commit w;
   NewRedundancyStrategyFromProto := NewRedundancyStrategyFromProto w;
   GetMissingPieces := GetMissingPieces w;
   CreateGetRepairOrderLimits := CreateGetRepairOrderLimits w;
   FindStorageNodesForRepair := FindStorageNodesForRepair w;
   CreatePutRepairOrderLimits := CreatePutRepairOrderLimits w;
   ec_Get := ec_Get w;
   BatchUpdateStats := BatchUpdateStats w;
   ec_Repair := ec_Repair w;
   reader_Close := reader_Close w;
   commit_fault := commit_fault w |}.

(** The world [w], except that the redundancy strategy is built by [build]. *)
Definition withRedundancy (build : RedundancyScheme -> error + RedundancyStrategy)
    (w : Env) : Env :=
{| get_fault := get_fault w;
   now_at_expiry_check := now_at_expiry_check w;
   now_at_age := now_at_age w;
   now_at_commit := now_at_commit w;
   NewRedundancyStrategyFromProto := build;
   GetMissingPieces := GetMissingPieces w;
   CreateGetRepairOrderLimits := CreateGetRepairOrderLimits w;
   FindStorageNodesForRepair := FindStorageNodesForRepair w;
   CreatePutRepairOrderLimits := CreatePutRepairOrderLimits w;
   ec_Get := ec_Get w;
   BatchUpdateStats := BatchUpdateStats w;
   ec_Repair := ec_Repair w;
   reader_Close := reader_Close w;
   commit_fault := commit_fault w |}.

(** The world [w], except that the overlay answers the missing-piece query by [query]. *)
Definition withMissingQuery (query : list RemotePiece -> error + list Z)
    (w : Env) : Env :=
{| get_fault := get_fault w;
   now_at_expiry_check := now_at_expiry_check w;
   now_at_age := now_at_age w;
   now_at_commit := now_at_commit w;
   NewRedundancyStrategyFromProto := NewRedundancyStrategyFromProto w;
   GetMissingPieces := query;
   CreateGetRepairOrderLimits := CreateGetRepairOrderLimits w;
   FindStorageNodesForRepair := FindStorageNodesForRepair w;
   CreatePutRepairOrderLimits := CreatePutRepairOrderLimits w;
   ec_Get := ec_Get w;
   BatchUpdateStats := BatchUpdateStats w;
   ec_Repair := ec_Repair w;
   reader_Close := reader_Close w;
   commit_fault := commit_fault w |}.

(** The world [w], except that the overlay answers the audit update by [update]. *)
Definition withStats (update : list UpdateRequest -> list NodeID * option error)
    (w : Env) : Env :=
{| get_fault := get_fault w;
   now_at_expiry_check := now_at_expiry_check w;
   now_at_age := now_at_age w;
   now_at_commit := now_at_commit w;
   NewRedundancyStrategyFromProto := NewRedundancyStrategyFromProto w;
   GetMissingPieces := GetMissingPieces w;
   CreateGetRepairOrderLimits := CreateGetRepairOrderLimits w;
   FindStorageNodesForRepair := FindStorageNodesForRepair w;
   CreatePutRepairOrderLimits := CreatePutRepairOrderLimits w;
   ec_Get := ec_Get w;
   BatchUpdateStats := update;
   ec_Repair := ec_Repair w;
   reader_Close := reader_Close w;
   commit_fault := commit_fault w |}.

(** The world [w], except that the upload answers by [upload]. *)
Definition withUpload (upload : OrderLimits -> PiecePrivateKey -> RedundancyStrategy -> Reader -> Duration -> Path -> error + (list (option Node) * list (option PieceHash)))
    (w : Env) : Env :=
{| get_fault := get_fault w;
   now_at_expiry_check := now_at_expiry_check w;
   now_at_age := now_at_age w;
   now_at_commit := now_at_commit w;
   NewRedundancyStrategyFromProto := NewRedundancyStrategyFromProto w;
   GetMissingPieces := GetMissingPieces w;
   CreateGetRepairOrderLimits := CreateGetRepairOrderLimits w;
   FindStorageNodesForRepair := FindStorageNodesForRepair w;
   CreatePutRepairOrderLimits := CreatePutRepairOrderLimits w;
   ec_Get := ec_Get w;
   BatchUpdateStats := BatchUpdateStats w;
   ec_Repair := upload;
   reader_Close := reader_Close w;
   commit_fault := commit_fault w |}.

(** ** More concrete pointers *)

Module Cases.

(** An inline segment. *)
Definition inlinePointer : Pointer :=
{| Type_ := Pointer_INLINE;
   Remote := {| Redundancy := Scenario.scheme; RemotePieces := [] |};
   SegmentSize := 16;
   CreationDate := Scenario.second 5000;
   ExpirationDate := Scenario.second 1;
   LastRepaired := 0;
   RepairCount := 0 |}.

(** A remote segment that expires at second 8000, before the clock
    reading (second 9000) of the worlds of [Scenario]. *)
Definition expiringPointer : Pointer :=
{| Type_ := Pointer_REMOTE;
   Remote := {| Redundancy := Scenario.scheme;
                RemotePieces := map Scenario.piece Scenario.slots |};
   SegmentSize := 1024;
   CreationDate := Scenario.second 5000;
   ExpirationDate := Scenario.second 8000;
   LastRepaired := 0;
   RepairCount := 0 |}.

End Cases.

(** * Properties *)

(** ** Integers, time and paths *)

Lemma wrap_fits w z :
  0 < w -> - 2 ^ (w - 1) <= z < 2 ^ (w - 1) -> wrap w z = z.
Proof.
  intros Hw Hz. unfold wrap.
  assert (H2 : 2 ^ w = 2 * 2 ^ (w - 1)).
  { replace w with (Z.succ (w - 1)) at 1 by lia. rewrite Z.pow_succ_r; lia. }
  rewrite Z.mod_small; lia.
Qed.

Lemma int32_fits z : fits32 z -> int32 z = z.
Proof.
  unfold fits32, MinInt32, MaxInt32, int32. intros.
  apply wrap_fits; [lia|]. change (2 ^ (32 - 1)) with 2147483648. lia.
Qed.

Lemma int32_range z : fits32 (int32 z).
Proof.
  unfold fits32, MinInt32, MaxInt32, int32, wrap.
  change (2 ^ (32 - 1)) with 2147483648. change (2 ^ 32) with 4294967296.
  pose proof (Z.mod_pos_bound (z + 2147483648) 4294967296). lia.
Qed.

(** The healthy count is total pieces minus missing pieces whenever that
    difference is an int32. *)
Lemma healthyCount_exact pointer missingPieces :
  fits32 (len (RemotePieces (Remote pointer)) - len missingPieces) ->
  healthyCount pointer missingPieces
  = len (RemotePieces (Remote pointer)) - len missingPieces.
Proof. apply int32_fits. Qed.

Lemma Sub_exact t u :
  minDuration <= t - u <= maxDuration -> Sub t u = t - u.
Proof.
  intros [Hlo Hhi]. unfold Sub.
  destruct (Z.leb_spec minDuration (t - u)); [|lia].
  destruct (Z.leb_spec (t - u) maxDuration); [|lia].
  reflexivity.
Qed.

Lemma SplitPath_nonempty path : SplitPath path <> [].
Proof.
  induction path as [|c rest IH]; simpl; [done|].
  destruct (Ascii.eqb c slash); [done|].
  destruct (SplitPath rest); done.
Qed.

Lemma createBucketID_fails_iff path :
  (exists e, createBucketID path = inl e) <-> (length (SplitPath path) < 3)%nat.
Proof.
  unfold createBucketID, len.
  destruct (Z.ltb_spec (Z.of_nat (length (SplitPath path))) 3); split.
  - lia.
  - eauto.
  - intros [e He]. discriminate He.
  - lia.
Qed.

Lemma createBucketID_joins path first second third rest :
  SplitPath path = first :: second :: third :: rest ->
  createBucketID path = inr (list_byte_of_string (JoinPaths first third)).
Proof.
  intros Hsplit. unfold createBucketID, len. rewrite Hsplit.
  destruct (Z.ltb_spec (Z.of_nat (length (first :: second :: third :: rest))) 3)
    as [Hlt|_]; [simpl in Hlt; lia|reflexivity].
Qed.

(** ** The piece bookkeeping *)

Lemma index_insert (m : gmap Z bool) k n :
  index (<[k := true]> m) n = (n =? k) || index m n.
Proof.
  unfold index. destruct (Z.eqb_spec n k) as [->|Hne].
  - by rewrite lookup_insert_eq.
  - by rewrite lookup_insert_ne.
Qed.

Lemma index_sliceToSet_from slice (m : gmap Z bool) n :
  index (fold_left (fun set value => <[value := true]> set) slice m) n
  = num_in n slice || index m n.
Proof.
  revert m. induction slice as [|v rest IH]; intros m; simpl; [done|].
  rewrite IH, index_insert. destruct (n =? v), (num_in n rest); done.
Qed.

(** A piece number reads as lost exactly when it is in the missing list. *)
Lemma index_sliceToSet slice n : index (sliceToSet slice) n = num_in n slice.
Proof.
  unfold sliceToSet. rewrite index_sliceToSet_from.
  unfold index. rewrite lookup_empty. simpl. apply orb_false_r.
Qed.

Lemma num_in_In n ns : num_in n ns = true <-> In n ns.
Proof.
  unfold num_in. rewrite existsb_exists. split.
  - intros [x [Hin Heq]]. apply Z.eqb_eq in Heq. by subst.
  - intros Hin. exists n. split; [done|apply Z.eqb_refl].
Qed.

Lemma partition_from lost pieces acc :
  let res := fold_left (partitionStep lost) pieces acc in
  healthyPieces res
    = healthyPieces acc
      ++ List.filter (fun p => negb (index lost (PieceNum p))) pieces
  /\ unhealthyPieces res
    = unhealthyPieces acc
      ++ List.filter (fun p => index lost (PieceNum p)) pieces
  /\ excludeNodeIDs res = excludeNodeIDs acc ++ map NodeId pieces.
Proof.
  revert acc. induction pieces as [|p rest IH]; intros acc; simpl.
  - by rewrite !app_nil_r.
  - destruct (IH (partitionStep lost acc p)) as (Hh & Hu & He).
    rewrite Hh, Hu, He. unfold partitionStep.
    destruct (index lost (PieceNum p)); simpl; by rewrite <- ?app_assoc.
Qed.

(** The healthy pieces are the pointer's pieces whose number is not lost,
    the unhealthy ones are the rest, and every piece's node is excluded. *)
Lemma healthyPieces_filter lost pieces :
  healthyPieces (partitionPieces lost pieces)
  = List.filter (fun p => negb (index lost (PieceNum p))) pieces.
Proof. apply (partition_from lost pieces). Qed.

Lemma unhealthyPieces_filter lost pieces :
  unhealthyPieces (partitionPieces lost pieces)
  = List.filter (fun p => index lost (PieceNum p)) pieces.
Proof. apply (partition_from lost pieces). Qed.

Lemma excludeNodeIDs_all lost pieces :
  excludeNodeIDs (partitionPieces lost pieces) = map NodeId pieces.
Proof. apply (partition_from lost pieces). Qed.

Lemma collectRepaired_map i nodes hashes acc m repaired repairedMap :
  collectRepaired i nodes hashes acc m = Some (repaired, repairedMap) ->
  (forall n, index m n = num_in n (pieceNums acc)) ->
  forall n, index repairedMap n = num_in n (pieceNums repaired).
Proof.
  revert i acc m. induction nodes as [|[node|] rest IH]; intros i acc m; simpl.
  - intros [= <- <-]. done.
  - destruct (hashes !! i) as [hash|]; [|done].
    intros Hrun Hinv. eapply IH; [exact Hrun|].
    intros n. rewrite index_insert, Hinv. unfold pieceNums, num_in.
    rewrite map_app, existsb_app. simpl.
    destruct (existsb (Z.eqb n) (map PieceNum acc)), (n =? _); done.
  - apply IH.
Qed.

(** [repairedMap] holds exactly the piece numbers of [repairedPieces]. *)
Lemma repairedMap_nums nodes hashes repaired repairedMap :
  collectRepaired 0 nodes hashes [] ∅ = Some (repaired, repairedMap) ->
  forall n, index repairedMap n = num_in n (pieceNums repaired).
Proof.
  intros Hrun. eapply collectRepaired_map; [exact Hrun|].
  intros n. unfold index. by rewrite lookup_empty.
Qed.

Lemma unhealthy_originally pointer missingPieces :
  unhealthyPieces (partsOf pointer missingPieces)
  = originallyUnhealthy pointer missingPieces.
Proof.
  unfold partsOf, originallyUnhealthy. rewrite unhealthyPieces_filter.
  apply List.filter_ext. intros p. apply index_sliceToSet.
Qed.

Lemma healthy_originally pointer missingPieces :
  healthyPieces (partsOf pointer missingPieces)
  = originallyHealthy pointer missingPieces.
Proof.
  unfold partsOf, originallyHealthy. rewrite healthyPieces_filter.
  apply List.filter_ext. intros p. by rewrite index_sliceToSet.
Qed.

Lemma In_pieceNums n ps :
  In n (pieceNums ps) <-> exists p, In p ps /\ PieceNum p = n.
Proof.
  unfold pieceNums. rewrite in_map_iff. split; intros [p [H1 H2]]; eauto.
Qed.


(** After a partial repair it is the unhealthy pieces whose number was
    repaired, followed by the failed ones. *)
Lemma removalsOf_partial pointer missingPieces nodes hashes repaired
    repairedMap failed :
  collectRepaired 0 nodes hashes [] ∅ = Some (repaired, repairedMap) ->
  afterRepair pointer missingPieces repaired
    < SuccessThreshold (Redundancy (Remote pointer)) ->
  removalsOf pointer missingPieces repaired repairedMap failed
  = List.filter (fun p => num_in (PieceNum p) (pieceNums repaired))
      (originallyUnhealthy pointer missingPieces)
    ++ failed.
Proof.
  intros Hcol Hpartial. unfold removalsOf, computeToRemove.
  destruct (Z.leb_spec (SuccessThreshold (Redundancy (Remote pointer)))
              (afterRepair pointer missingPieces repaired)); [lia|].
  rewrite unhealthy_originally. f_equal.
  apply List.filter_ext. intros p. eapply repairedMap_nums, Hcol.
Qed.

Lemma originallyUnhealthy_In pointer missingPieces u :
  In u (originallyUnhealthy pointer missingPieces)
  <-> In u (RemotePieces (Remote pointer))
      /\ num_in (PieceNum u) missingPieces = true.
Proof. unfold originallyUnhealthy. apply filter_In. Qed.

Lemma originallyHealthy_In pointer missingPieces p :
  In p (originallyHealthy pointer missingPieces)
  <-> In p (RemotePieces (Remote pointer))
      /\ num_in (PieceNum p) missingPieces = false.
Proof.
  unfold originallyHealthy. rewrite filter_In, negb_true_iff. done.
Qed.

(** ** Tactics for running [Repair] symbolically *)

Ltac run_repair :=
  cbv beta iota zeta delta
    [Repair bind call emit ret return_ panic deferClose metainfo_Get
     metainfo_UpdatePieces updateAuditFailStatus initial outcome
     trace store fst snd app assessTrace transferTrace].

(** Rewrite with a collaborator's answer, then run on. *)
Ltac answer H := rewrite ?H; run_repair.

(** Follow every branch [Repair] can take. *)
Ltac all_runs :=
  repeat (run_repair;
    match goal with
    | |- context [match ?x with _ => _ end] =>
        lazymatch x with
        | context [match _ with _ => _ end] => fail
        | _ => destruct x eqn:?
        end
    end).

(** Step over the audit update, whatever the overlay answers to it. *)
Ltac audit_update :=
  match goal with
  | |- context [0 <? len ?reqs] => destruct (0 <? len reqs)
  end;
  run_repair;
  try match goal with
      | |- context [BatchUpdateStats ?e ?reqs] =>
          destruct (BatchUpdateStats e reqs) as [? ?]; run_repair;
          match goal with
          | |- context [if ?c then _ else _] => destruct c
          end;
          run_repair
      end.

(** Run from the start to the threshold tests, given [Assessed]. *)
Ltac run_assessed Has :=
  destruct Has as [Hg Hs Hr Hl Hred Hm];
  unfold transferTrace, auditTrace, requestOf, partsOf, stamped,
    healthyCount in *;
  run_repair; answer Hg; answer Hs; answer Hr; answer Hl; answer Hred;
  answer Hm.

(** Run on through both threshold tests, given [NeedsRepair]. *)
Ltac run_needed Hneeds :=
  destruct Hneeds as [Hmin Hthr]; unfold healthyCount in *;
  match goal with
  | |- context [?a <? ?b] => destruct (Z.ltb_spec a b); [lia|]
  end;
  run_repair;
  match goal with
  | |- context [?a <? ?b] => destruct (Z.ltb_spec a b); [lia|]
  end;
  run_repair.

(** Run on through the authorizations, given [Authorized]. *)
Ltac run_authorized Hauth :=
  destruct Hauth as [Hbucket Hget Hnodes Hput];
  unfold requestOf, partsOf in *;
  answer Hbucket; answer Hget; answer Hnodes; answer Hput.

(** Follow every branch, reading the store through [Hs]. *)
Ltac all_runs_from Hs :=
  repeat (run_repair; rewrite ?Hs;
    match goal with
    | |- context [match ?x with _ => _ end] =>
        lazymatch x with
        | context [match _ with _ => _ end] => fail
        | _ => destruct x eqn:?
        end
    end).

(** Decide membership of an event in an explicit trace. *)
Ltac in_trace H :=
  cbn [In] in H;
  repeat match type of H with
         | _ \/ _ => destruct H as [H|H]
         | False => destruct H
         | _ = _ => first [discriminate H | injection H as H]
         end.


(** ** Runs of [Repair] *)

Section Runs.

Variables (env : Env) (repairer : SegmentRepairer) (st : Store) (path : Path).
Variables (pointer : Pointer) (redundancy : RedundancyStrategy)
          (missingPieces : list Z).

Hypothesis Hassessed : Assessed env st path pointer redundancy missingPieces.

Let pieces := RemotePieces (Remote pointer).
Let healthy := numHealthy pieces missingPieces.

(** Below the minimum: the run ends right after the missing-piece query. *)
Lemma run_irreparable :
  healthyCount pointer missingPieces < MinReq (Redundancy (Remote pointer)) ->
  Repair env repairer path (initial st) =
    ({| trace := assessTrace path pointer
                 ++ [EvMeter "repair_nodes_unavailable"];
        store := st |},
     Return {| shouldDelete := true;
               err := Some (Irreparable
                 {| ie_path := path;
                    piecesAvailable := healthyCount pointer missingPieces;
                    piecesRequired := MinReq (Redundancy (Remote pointer));
                    segmentInfo := Some pointer |}) |}).
Proof.
  intros Hlt. run_assessed Hassessed.
  destruct (Z.ltb_spec
              (int32 (numHealthy (RemotePieces (Remote pointer)) missingPieces))
              (MinReq (Redundancy (Remote pointer))));
    [reflexivity|lia].
Qed.

(** Above the threshold in force: the run ends there as well. *)
Lemma run_unnecessary :
  MinReq (Redundancy (Remote pointer)) <= healthyCount pointer missingPieces ->
  effectiveRepairThreshold repairer pointer
    < healthyCount pointer missingPieces ->
  Repair env repairer path (initial st) =
    ({| trace := assessTrace path pointer ++ [EvMeter "repair_unnecessary"];
        store := st |},
     Return {| shouldDelete := true; err := None |}).
Proof.
  intros Hmin Hthr. run_assessed Hassessed.
  destruct (Z.ltb_spec
              (int32 (numHealthy (RemotePieces (Remote pointer)) missingPieces))
              (MinReq (Redundancy (Remote pointer))));
    [lia|].
  run_repair.
  destruct (Z.ltb_spec (effectiveRepairThreshold repairer pointer)
              (int32 (numHealthy (RemotePieces (Remote pointer))
                        missingPieces)));
    [reflexivity|lia].
Qed.

Hypothesis Hneeds : NeedsRepair repairer pointer missingPieces.

Let parts := partsOf pointer missingPieces.

(** A malformed path ends the run before any authorization is asked for. *)
Lemma run_bad_path e :
  createBucketID path = inl e ->
  Repair env repairer path (initial st) =
    ({| trace := assessTrace path pointer
                 ++ [EvFloatVal "healthy_ratio_before_repair"
                       (healthyRatio healthy pointer)];
        store := st |},
     Return {| shouldDelete := true;
               err := Some (Classed invalidRepairError
                              "invalid path; cannot repair segment"
                              (Some e)) |}).
Proof.
  intros Hbucket. subst healthy pieces.
  run_assessed Hassessed. run_needed Hneeds. answer Hbucket. reflexivity.
Qed.

Variables (bucketID : list Byte.byte)
          (getOrderLimits : OrderLimits) (getPrivateKey : PiecePrivateKey)
          (newNodes : list Node)
          (putLimits : OrderLimits) (putPrivateKey : PiecePrivateKey).

Hypothesis Hauthorized :
  Authorized env repairer path pointer redundancy missingPieces bucketID
    getOrderLimits getPrivateKey newNodes putLimits putPrivateKey.

Variables (segmentReader : Reader) (failedPieces : list RemotePiece)
          (getErr : option error).

Hypothesis Hdownload :
  ec_Get env getOrderLimits getPrivateKey redundancy (SegmentSize pointer) path
  = (segmentReader, failedPieces, getErr).

Let upto_download : list Event :=
  assessTrace path pointer
  ++ transferTrace repairer pointer redundancy missingPieces bucketID
       getOrderLimits newNodes failedPieces.

(** The download failed: the run ends after the audit update. *)
Lemma run_download_failed :
  getErr <> None ->
  Repair env repairer path (initial st) =
    match getErr with
    | Some (Irreparable ie) =>
        ({| trace := upto_download
                     ++ [EvMeter "repair_too_many_nodes_failed"];
            store := st |},
         Return {| shouldDelete := true;
                   err := Some (Irreparable
                     {| ie_path := ie_path ie;
                        piecesAvailable := piecesAvailable ie;
                        piecesRequired := piecesRequired ie;
                        segmentInfo := Some pointer |}) |})
    | other =>
        ({| trace := upto_download; store := st |},
         Return {| shouldDelete := true;
                   err := Some (Classed repairReconstructError
                                  "segment could not be reconstructed"
                                  other) |})
    end.
Proof.
  intros Herr. subst upto_download parts healthy pieces.
  run_assessed Hassessed. run_needed Hneeds. run_authorized Hauthorized.
  answer Hdownload.
  audit_update; destruct getErr as [[| | |]|]; done.
Qed.

Hypothesis Hgot : getErr = None.

(** The upload failed: the reader is closed and the run ends. *)
Lemma run_upload_failed e :
  ec_Repair env putLimits putPrivateKey redundancy segmentReader
    (timeout repairer) path = inl e ->
  Repair env repairer path (initial st) =
    ({| trace := upto_download ++ [EvECRepair putLimits; EvReaderClose];
        store := st |},
     Return {| shouldDelete := false;
               err := Combine (Some (Classed repairPutError "" (Some e)))
                        (reader_Close env) |}).
Proof.
  intros Hupload. subst upto_download parts healthy pieces getErr.
  run_assessed Hassessed. run_needed Hneeds. run_authorized Hauthorized.
  answer Hdownload.
  audit_update; answer Hupload; by rewrite <- ?app_assoc.
Qed.

Variables (successfulNodes : list (option Node))
          (hashes : list (option PieceHash))
          (repairedPieces : list RemotePiece) (repairedMap : gmap Z bool).

Hypothesis Hupload :
  ec_Repair env putLimits putPrivateKey redundancy segmentReader
    (timeout repairer) path = inr (successfulNodes, hashes).
Hypothesis Hcollected :
  collectRepaired 0 successfulNodes hashes [] ∅
  = Some (repairedPieces, repairedMap).

Let after := healthyAfterRepair (healthyPieces parts) repairedPieces.
Let toRemove :=
  computeToRemove after pointer (unhealthyPieces parts) repairedMap
    failedPieces.

Let upto_commit : list Event :=
  upto_download
  ++ [EvECRepair putLimits;
      EvMeter (outcomeMeter after pointer);
      EvFloatVal "healthy_ratio_after_repair" (healthyRatio after pointer);
      EvUpdatePieces path (stamped env pointer) repairedPieces toRemove].

(** The upload went through: the commit is attempted, and the run ends
    according to what the metainfo service says. *)
Lemma run_commit :
  Repair env repairer path (initial st) =
    match commit_fault env path (stamped env pointer) repairedPieces toRemove
    with
    | Some e =>
        ({| trace := upto_commit ++ [EvReaderClose]; store := st |},
         Return {| shouldDelete := false;
                   err := Combine
                            (Some (Classed metainfoPutError "" (Some e)))
                            (reader_Close env) |})
    | None =>
        ({| trace :=
              upto_commit
              ++ [EvIntVal "segment_time_until_repair"
                    (F64.to_int64
                       (Seconds (segmentAge (now_at_age env) pointer)));
                  EvIntVal "segment_repair_count"
                    (int64 (RepairCount (stamped env pointer)));
                  EvReaderClose];
            store :=
              <[path :=
                  set_repair_stamp
                    (set_pieces pointer
                       (updatedPieces (RemotePieces (Remote pointer))
                          repairedPieces toRemove))
                    (now_at_commit env)
                    (int32 (RepairCount pointer + 1))]> st |},
         Return {| shouldDelete := true;
                   err := Combine None (reader_Close env) |})
    end.
Proof.
  subst upto_commit toRemove after upto_download parts healthy pieces getErr.
  run_assessed Hassessed. run_needed Hneeds. run_authorized Hauthorized.
  answer Hdownload.
  audit_update; answer Hupload; answer Hcollected;
    (destruct (commit_fault _ _ _ _ _); run_repair;
     [|answer Hs]; by rewrite <- ?app_assoc).
Qed.

End Runs.

(** The same, in terms of the records and of [removalsOf]. *)
Lemma run_transferred
    env repairer st path pointer redundancy missingPieces
    bucketID getOrderLimits getPrivateKey newNodes putLimits putPrivateKey
    segmentReader failedPieces successfulNodes hashes
    repairedPieces repairedMap :
  Assessed env st path pointer redundancy missingPieces ->
  NeedsRepair repairer pointer missingPieces ->
  Authorized env repairer path pointer redundancy missingPieces bucketID
    getOrderLimits getPrivateKey newNodes putLimits putPrivateKey ->
  Transferred env repairer path pointer redundancy getOrderLimits
    getPrivateKey putLimits putPrivateKey segmentReader failedPieces
    successfulNodes hashes repairedPieces repairedMap ->
  let after := afterRepair pointer missingPieces repairedPieces in
  let toRemove :=
    removalsOf pointer missingPieces repairedPieces repairedMap failedPieces in
  let upto_commit :=
    assessTrace path pointer
    ++ transferTrace repairer pointer redundancy missingPieces bucketID
         getOrderLimits newNodes failedPieces
    ++ [EvECRepair putLimits;
        EvMeter (outcomeMeter after pointer);
        EvFloatVal "healthy_ratio_after_repair" (healthyRatio after pointer);
        EvUpdatePieces path (stamped env pointer) repairedPieces toRemove] in
  Repair env repairer path (initial st) =
    match commit_fault env path (stamped env pointer) repairedPieces toRemove
    with
    | Some e =>
        ({| trace := upto_commit ++ [EvReaderClose]; store := st |},
         Return {| shouldDelete := false;
                   err := Combine
                            (Some (Classed metainfoPutError "" (Some e)))
                            (reader_Close env) |})
    | None =>
        ({| trace :=
              upto_commit
              ++ [EvIntVal "segment_time_until_repair"
                    (F64.to_int64
                       (Seconds (segmentAge (now_at_age env) pointer)));
                  EvIntVal "segment_repair_count"
                    (int64 (RepairCount (stamped env pointer)));
                  EvReaderClose];
            store :=
              <[path :=
                  set_repair_stamp
                    (set_pieces pointer
                       (updatedPieces (RemotePieces (Remote pointer))
                          repairedPieces toRemove))
                    (now_at_commit env)
                    (int32 (RepairCount pointer + 1))]> st |},
         Return {| shouldDelete := true;
                   err := Combine None (reader_Close env) |})
    end.
Proof.
  intros Has Hneeds Hauth [Hdown Hup Hcol]. cbv zeta.
  rewrite (run_commit _ _ _ _ _ _ _ Has Hneeds _ _ _ _ _ _ Hauth
             _ _ _ Hdown eq_refl _ _ _ _ Hup Hcol).
  unfold removalsOf, afterRepair. rewrite <- !app_assoc. reflexivity.
Qed.

(** The events of a list that are commits. *)
Lemma commits_app tr1 tr2 :
  List.filter is_commit (tr1 ++ tr2)
  = List.filter is_commit tr1 ++ List.filter is_commit tr2.
Proof. apply List.filter_app. Qed.

Lemma no_commit_before_upload
    repairer pointer redundancy missingPieces bucketID getOrderLimits
    newNodes failedPieces path :
  List.filter is_commit
    (assessTrace path pointer
     ++ transferTrace repairer pointer redundancy missingPieces bucketID
          getOrderLimits newNodes failedPieces) = [].
Proof.
  rewrite commits_app. unfold transferTrace, auditTrace.
  rewrite commits_app. destruct (0 <? len _); reflexivity.
Qed.


(** The one commit of a run that got through the transfer. *)
Lemma run_single_commit
    env repairer st path pointer redundancy missingPieces
    bucketID getOrderLimits getPrivateKey newNodes putLimits putPrivateKey
    segmentReader failedPieces successfulNodes hashes
    repairedPieces repairedMap :
  Assessed env st path pointer redundancy missingPieces ->
  NeedsRepair repairer pointer missingPieces ->
  Authorized env repairer path pointer redundancy missingPieces bucketID
    getOrderLimits getPrivateKey newNodes putLimits putPrivateKey ->
  Transferred env repairer path pointer redundancy getOrderLimits
    getPrivateKey putLimits putPrivateKey segmentReader failedPieces
    successfulNodes hashes repairedPieces repairedMap ->
  List.filter is_commit (trace (fst (Repair env repairer path (initial st))))
  = [EvUpdatePieces path (stamped env pointer) repairedPieces
       (removalsOf pointer missingPieces repairedPieces repairedMap
          failedPieces)].
Proof.
  intros Has Hneeds Hauth Htr.
  rewrite (run_transferred _ _ _ _ _ _ _ _ _ _ _ _ _ _ _ _ _ _ _
             Has Hneeds Hauth Htr).
  destruct (commit_fault _ _ _ _ _); cbn [fst trace];
    rewrite <- !app_assoc, (app_assoc (assessTrace _ _)), commits_app,
      no_commit_before_upload; reflexivity.
Qed.

(** * The claims *)

(** ** Steps 5 to 7: irreparable, or no repair needed *)

(** C4. For every pointer (fetched, remote, not expired) whose healthy
    count, total pieces minus missing pieces as the code compares it, is
    below [MinReq], [Repair] returns [(true, irreparableError)] whose
    available count is that healthy count and whose required count is the
    scheme's [MinReq]; it performs no upload and no commit, and leaves the
    store alone. *)
Theorem Repair_irreparable_below_minimum
    env repairer st path pointer redundancy missingPieces :
  Assessed env st path pointer redundancy missingPieces ->
  healthyCount pointer missingPieces < MinReq (Redundancy (Remote pointer)) ->
  let r := Repair env repairer path (initial st) in
  (exists ie,
      outcome r = Some {| shouldDelete := true; err := Some (Irreparable ie) |}
      /\ piecesAvailable ie = healthyCount pointer missingPieces
      /\ piecesRequired ie = MinReq (Redundancy (Remote pointer)))
  /\ existsb is_upload (trace (fst r)) = false
  /\ existsb is_commit (trace (fst r)) = false
  /\ store (fst r) = st.
Proof.
  intros Has Hlt r. subst r.
  rewrite (run_irreparable _ repairer _ _ _ _ _ Has Hlt).
  split; [|done]. eexists. split; [reflexivity|done].
Qed.

Lemma Repair_irreparable_below_minimum_witness :
  let r := Repair (Scenario.env [2; 3; 4; 5; 6; 7; 8; 9] [] [] None None)
             Scenario.repairer Scenario.path (initial (Scenario.st 0)) in
  (exists ie,
      outcome r = Some {| shouldDelete := true; err := Some (Irreparable ie) |}
      /\ piecesAvailable ie = 2 /\ piecesRequired ie = 3)
  /\ existsb is_upload (trace (fst r)) = false
  /\ existsb is_commit (trace (fst r)) = false
  /\ store (fst r) = Scenario.st 0.
Proof.
  apply (Repair_irreparable_below_minimum
           (Scenario.env [2; 3; 4; 5; 6; 7; 8; 9] [] [] None None)
           Scenario.repairer (Scenario.st 0) Scenario.path
           (Scenario.pointer 0) Scenario.redundancy [2; 3; 4; 5; 6; 7; 8; 9]).
  - constructor; reflexivity.
  - reflexivity.
Defined.

(** C1, as amended.  For every pointer (fetched, remote, not expired)
    whose healthy count is strictly greater than the repair threshold in
    force, the override when it is not zero and the scheme's
    [RepairThreshold] otherwise, and is not below [MinReq], [Repair] returns
    [(true, nil)], and its only calls are the fetch and the missing-piece
    query. *)
Theorem Repair_unnecessary_above_threshold
    env repairer st path pointer redundancy missingPieces :
  Assessed env st path pointer redundancy missingPieces ->
  MinReq (Redundancy (Remote pointer)) <= healthyCount pointer missingPieces ->
  effectiveRepairThreshold repairer pointer
    < healthyCount pointer missingPieces ->
  let r := Repair env repairer path (initial st) in
  outcome r = Some {| shouldDelete := true; err := None |}
  /\ calls (trace (fst r))
     = [EvMetainfoGet path; EvGetMissingPieces (RemotePieces (Remote pointer))]
  /\ existsb is_further_call (trace (fst r)) = false
  /\ store (fst r) = st.
Proof.
  intros Has Hmin Hthr r. subst r.
  rewrite (run_unnecessary _ repairer _ _ _ _ _ Has Hmin Hthr). done.
Qed.

Lemma Repair_unnecessary_above_threshold_witness :
  let r := Repair (Scenario.env [6; 7; 8; 9] [] [] None None)
             Scenario.repairer Scenario.path (initial (Scenario.st 0)) in
  outcome r = Some {| shouldDelete := true; err := None |}
  /\ calls (trace (fst r))
     = [EvMetainfoGet Scenario.path;
        EvGetMissingPieces (map Scenario.piece Scenario.slots)]
  /\ existsb is_further_call (trace (fst r)) = false
  /\ store (fst r) = Scenario.st 0.
Proof.
  apply (Repair_unnecessary_above_threshold
           (Scenario.env [6; 7; 8; 9] [] [] None None)
           Scenario.repairer (Scenario.st 0) Scenario.path
           (Scenario.pointer 0) Scenario.redundancy [6; 7; 8; 9]).
  - constructor; reflexivity.
  - vm_compute. discriminate.
  - reflexivity.
Defined.

(** C1, as stated, fails.  With five of the ten pieces missing the healthy
    count equals the threshold 5: the repair goes ahead, asks for order
    limits and for new nodes, and here returns [(false, err)] because the
    node selection fails.  With an override of 1 and eight pieces missing
    the healthy count 2 is above the threshold in force, and the segment
    is declared irreparable. *)
Lemma Repair_at_threshold_goes_ahead :
  (let env := Scenario.env [5; 6; 7; 8; 9] [] [] (Some (External "no nodes")) None in
   let r := Repair env Scenario.repairer Scenario.path (initial (Scenario.st 0)) in
   Assessed env (Scenario.st 0) Scenario.path (Scenario.pointer 0)
     Scenario.redundancy [5; 6; 7; 8; 9]
   /\ healthyCount (Scenario.pointer 0) [5; 6; 7; 8; 9] = 5
   /\ effectiveRepairThreshold Scenario.repairer (Scenario.pointer 0) = 5
   /\ outcome r <> Some {| shouldDelete := true; err := None |}
   /\ existsb is_further_call (trace (fst r)) = true)
  /\
  (let env := Scenario.env [2; 3; 4; 5; 6; 7; 8; 9] [] [] None None in
   let r := Repair env Scenario.lowOverride Scenario.path (initial (Scenario.st 0)) in
   Assessed env (Scenario.st 0) Scenario.path (Scenario.pointer 0)
     Scenario.redundancy [2; 3; 4; 5; 6; 7; 8; 9]
   /\ healthyCount (Scenario.pointer 0) [2; 3; 4; 5; 6; 7; 8; 9] = 2
   /\ effectiveRepairThreshold Scenario.lowOverride (Scenario.pointer 0) = 1
   /\ outcome r <> Some {| shouldDelete := true; err := None |}).
Proof.
  split; cbv zeta; (split; [constructor; reflexivity|]);
    (split; [reflexivity|]); (split; [reflexivity|]).
  - split; [vm_compute; discriminate|vm_compute; reflexivity].
  - vm_compute. discriminate.
Qed.


(** ** Step 9: the scope identifier *)

(** C10. The derivation of the scope identifier fails exactly when the
    path splits into fewer than three components, and a run of [Repair]
    that gets that far then returns [(true, err)]; with three or more
    components it succeeds with the first and third component joined, the
    second one being ignored. *)
Theorem Repair_scope_from_path
    env repairer st path pointer redundancy missingPieces :
  Assessed env st path pointer redundancy missingPieces ->
  NeedsRepair repairer pointer missingPieces ->
  ((exists e, createBucketID path = inl e)
   <-> (length (SplitPath path) < 3)%nat)
  /\ ((length (SplitPath path) < 3)%nat ->
      exists e,
        createBucketID path = inl e
        /\ outcome (Repair env repairer path (initial st))
           = Some {| shouldDelete := true;
                     err := Some (Classed invalidRepairError
                                    "invalid path; cannot repair segment"
                                    (Some e)) |})
  /\ (forall first second third rest,
        SplitPath path = first :: second :: third :: rest ->
        createBucketID path
        = inr (list_byte_of_string (JoinPaths first third))).
Proof.
  intros Has Hneeds. split; [apply createBucketID_fails_iff|]. split.
  - intros Hshort. apply createBucketID_fails_iff in Hshort as [e He].
    exists e. split; [exact He|].
    by rewrite (run_bad_path _ repairer _ _ _ _ _ Has Hneeds e He).
  - apply createBucketID_joins.
Qed.

Lemma Repair_scope_from_path_witness :
  ((exists e, createBucketID Scenario.shortPath = inl e)
   <-> (length (SplitPath Scenario.shortPath) < 3)%nat)
  /\ ((length (SplitPath Scenario.shortPath) < 3)%nat ->
      exists e,
        createBucketID Scenario.shortPath = inl e
        /\ outcome (Repair (Scenario.env [4; 5; 6; 7; 8; 9] [] [] None None)
                      Scenario.repairer Scenario.shortPath
                      (initial Scenario.shortSt))
           = Some {| shouldDelete := true;
                     err := Some (Classed invalidRepairError
                                    "invalid path; cannot repair segment"
                                    (Some e)) |})
  /\ (forall first second third rest,
        SplitPath Scenario.shortPath = first :: second :: third :: rest ->
        createBucketID Scenario.shortPath
        = inr (list_byte_of_string (JoinPaths first third))).
Proof.
  apply (Repair_scope_from_path
           (Scenario.env [4; 5; 6; 7; 8; 9] [] [] None None)
           Scenario.repairer Scenario.shortSt Scenario.shortPath
           (Scenario.pointer 0) Scenario.redundancy [4; 5; 6; 7; 8; 9]).
  - constructor; reflexivity.
  - constructor; vm_compute; discriminate.
Defined.

(** ** Steps 14 and 15: the transfer *)

(** C5. Once the authorizations are in hand, a download that reports the
    irreparable condition makes [Repair] return [(true, irreparableError)];
    a download that fails in any other way makes it return [(true,
    repairReconstructError)]; and when the download succeeds but the upload
    fails, [Repair] returns [(false, err)] with [err] of the class
    [repairPutError]. *)
Theorem Repair_transfer_failures
    env repairer st path pointer redundancy missingPieces
    bucketID getOrderLimits getPrivateKey newNodes putLimits putPrivateKey
    segmentReader failedPieces getErr :
  Assessed env st path pointer redundancy missingPieces ->
  NeedsRepair repairer pointer missingPieces ->
  Authorized env repairer path pointer redundancy missingPieces bucketID
    getOrderLimits getPrivateKey newNodes putLimits putPrivateKey ->
  ec_Get env getOrderLimits getPrivateKey redundancy (SegmentSize pointer) path
    = (segmentReader, failedPieces, getErr) ->
  let r := Repair env repairer path (initial st) in
  (forall ie, getErr = Some (Irreparable ie) ->
     exists ie',
       outcome r
       = Some {| shouldDelete := true; err := Some (Irreparable ie') |}
       /\ piecesAvailable ie' = piecesAvailable ie
       /\ piecesRequired ie' = piecesRequired ie)
  /\ (forall e, getErr = Some e -> is_irreparable (Some e) = false ->
        outcome r
        = Some {| shouldDelete := true;
                  err := Some (Classed repairReconstructError
                                 "segment could not be reconstructed"
                                 (Some e)) |})
  /\ (forall e, getErr = None ->
        ec_Repair env putLimits putPrivateKey redundancy segmentReader
          (timeout repairer) path = inl e ->
        exists err,
          outcome r = Some {| shouldDelete := false; err := Some err |}
          /\ has_class repairPutError (Some err)
          /\ existsb is_commit (trace (fst r)) = false).
Proof.
  intros Has Hneeds Hauth Hdown r. subst r. split; [|split].
  - intros ie ->.
    rewrite (run_download_failed _ _ _ _ _ _ _ Has Hneeds _ _ _ _ _ _ Hauth
               _ _ _ Hdown); [|done].
    eexists. split; [reflexivity|done].
  - intros e -> Hother.
    rewrite (run_download_failed _ _ _ _ _ _ _ Has Hneeds _ _ _ _ _ _ Hauth
               _ _ _ Hdown); [|done].
    by destruct e.
  - intros e Hgot Hup.
    rewrite (run_upload_failed _ _ _ _ _ _ _ Has Hneeds _ _ _ _ _ _ Hauth
               _ _ _ Hdown Hgot e Hup).
    unfold transferTrace, auditTrace.
    destruct (reader_Close env); eexists; (split; [reflexivity|]);
      (split; [done|]); destruct (0 <? len _); reflexivity.
Qed.

Lemma Repair_transfer_failures_witness :
  let env := Scenario.failingUpload (External "deadline exceeded")
               (Scenario.sixLost [] []) in
  let r := Repair env Scenario.repairer Scenario.path
             (initial (Scenario.st 0)) in
  exists err,
    outcome r = Some {| shouldDelete := false; err := Some err |}
    /\ has_class repairPutError (Some err)
    /\ existsb is_commit (trace (fst r)) = false.
Proof.
  cbv zeta.
  eapply (Repair_transfer_failures
            (Scenario.failingUpload (External "deadline exceeded")
               (Scenario.sixLost [] []))
            Scenario.repairer (Scenario.st 0) Scenario.path
            (Scenario.pointer 0) Scenario.redundancy [4; 5; 6; 7; 8; 9]).
  - constructor; reflexivity.
  - constructor; vm_compute; discriminate.
  - constructor.
    + vm_compute; reflexivity.
    + vm_compute; reflexivity.
    + vm_compute; reflexivity.
    + vm_compute; reflexivity.
  - vm_compute. reflexivity.
  - reflexivity.
  - vm_compute. reflexivity.
Defined.


(** ** Steps 16 to 19: classification, removal list and commit *)

(** C6. The failed/partial/success class computed from
    [healthyAfterRepair] only picks the meter that is marked.  Whatever
    the class, the commit is attempted with the same arguments and
    [Repair] returns [(true, ...)] when the commit goes through and
    [(false, metainfoPutError)] when it does not; in particular this is so
    when [healthyAfterRepair] is at or under the repair threshold and the
    run is counted as failed. *)
Theorem Repair_outcome_class_is_observation_only
    env repairer st path pointer redundancy missingPieces
    bucketID getOrderLimits getPrivateKey newNodes putLimits putPrivateKey
    segmentReader failedPieces successfulNodes hashes
    repairedPieces repairedMap :
  Assessed env st path pointer redundancy missingPieces ->
  NeedsRepair repairer pointer missingPieces ->
  Authorized env repairer path pointer redundancy missingPieces bucketID
    getOrderLimits getPrivateKey newNodes putLimits putPrivateKey ->
  Transferred env repairer path pointer redundancy getOrderLimits
    getPrivateKey putLimits putPrivateKey segmentReader failedPieces
    successfulNodes hashes repairedPieces repairedMap ->
  let after := afterRepair pointer missingPieces repairedPieces in
  let toRemove :=
    removalsOf pointer missingPieces repairedPieces repairedMap failedPieces in
  let r := Repair env repairer path (initial st) in
  In (EvMeter (outcomeMeter after pointer)) (trace (fst r))
  /\ (after <= RepairThreshold (Redundancy (Remote pointer)) ->
      outcomeMeter after pointer = "repair_failed"%string)
  /\ List.filter is_commit (trace (fst r))
     = [EvUpdatePieces path (stamped env pointer) repairedPieces toRemove]
  /\ (commit_fault env path (stamped env pointer) repairedPieces toRemove
      = None ->
      outcome r = Some {| shouldDelete := true; err := reader_Close env |})
  /\ (forall e,
        commit_fault env path (stamped env pointer) repairedPieces toRemove
        = Some e ->
        exists err,
          outcome r = Some {| shouldDelete := false; err := Some err |}
          /\ has_class metainfoPutError (Some err)).
Proof.
  intros Has Hneeds Hauth Htr after toRemove r. subst r.
  rewrite (run_transferred _ _ _ _ _ _ _ _ _ _ _ _ _ _ _ _ _ _ _
             Has Hneeds Hauth Htr).
  fold after toRemove.
  assert (Hclass : after <= RepairThreshold (Redundancy (Remote pointer)) ->
                   outcomeMeter after pointer = "repair_failed"%string).
  { intros Hle. unfold outcomeMeter.
    destruct (Z.leb_spec after (RepairThreshold (Redundancy (Remote pointer))));
      [reflexivity|lia]. }
  destruct (commit_fault _ _ _ _ _) as [e|] eqn:Hfault; cbn [fst snd trace].
  - split; [|split; [exact Hclass|split; [|split; [done|]]]].
    + rewrite !in_app_iff. left. right. right. simpl. tauto.
    + rewrite <- !app_assoc, (app_assoc (assessTrace _ _)), commits_app,
        no_commit_before_upload. reflexivity.
    + intros e' [= <-]. unfold outcome. cbn [snd].
      destruct (reader_Close env); eexists; (split; [reflexivity|done]).
  - split; [|split; [exact Hclass|split; [|split; [|done]]]].
    + rewrite !in_app_iff. left. right. right. simpl. tauto.
    + rewrite <- !app_assoc, (app_assoc (assessTrace _ _)), commits_app,
        no_commit_before_upload. reflexivity.
    + intros _. unfold outcome. cbn [snd]. by destruct (reader_Close env).
Qed.

Lemma Repair_outcome_class_is_observation_only_witness :
  let env := Scenario.sixLost Scenario.oneUpload [Scenario.piece 0] in
  let repaired := [Scenario.repairedPiece 4] in
  let repairedMap : gmap Z bool := <[4 := true]> ∅ in
  let after := afterRepair (Scenario.pointer 0) [4; 5; 6; 7; 8; 9] repaired in
  let toRemove :=
    removalsOf (Scenario.pointer 0) [4; 5; 6; 7; 8; 9] repaired repairedMap
      [Scenario.piece 0] in
  let r := Repair env Scenario.repairer Scenario.path
             (initial (Scenario.st 0)) in
  In (EvMeter (outcomeMeter after (Scenario.pointer 0))) (trace (fst r))
  /\ (after <= 5 ->
      outcomeMeter after (Scenario.pointer 0) = "repair_failed"%string)
  /\ List.filter is_commit (trace (fst r))
     = [EvUpdatePieces Scenario.path (stamped env (Scenario.pointer 0))
          repaired toRemove]
  /\ (commit_fault env Scenario.path (stamped env (Scenario.pointer 0))
        repaired toRemove = None ->
      outcome r = Some {| shouldDelete := true; err := None |})
  /\ (forall e,
        commit_fault env Scenario.path (stamped env (Scenario.pointer 0))
          repaired toRemove = Some e ->
        exists err,
          outcome r = Some {| shouldDelete := false; err := Some err |}
          /\ has_class metainfoPutError (Some err)).
Proof.
  cbv zeta.
  eapply (Repair_outcome_class_is_observation_only
            (Scenario.sixLost Scenario.oneUpload [Scenario.piece 0])
            Scenario.repairer (Scenario.st 0) Scenario.path
            (Scenario.pointer 0) Scenario.redundancy [4; 5; 6; 7; 8; 9]).
  - constructor; reflexivity.
  - constructor; vm_compute; discriminate.
  - constructor.
    + vm_compute; reflexivity.
    + vm_compute; reflexivity.
    + vm_compute; reflexivity.
    + vm_compute; reflexivity.
  - constructor.
    + vm_compute; reflexivity.
    + vm_compute; reflexivity.
    + vm_compute; reflexivity.
Defined.




(** C3. After a partial repair whose commit goes through, every
    originally unhealthy piece whose number is not among the repaired
    piece numbers is absent from the removal list and is still in the
    committed pointer; an unhealthy piece is on the removal list exactly
    when a repaired piece carries its number.  The download reports as
    failed only pieces it fetched ([failedWereDownloaded]). *)
Theorem Repair_partial_keeps_unrepaired
    env repairer st path pointer redundancy missingPieces
    bucketID getOrderLimits getPrivateKey newNodes putLimits putPrivateKey
    segmentReader failedPieces successfulNodes hashes
    repairedPieces repairedMap :
  Assessed env st path pointer redundancy missingPieces ->
  NeedsRepair repairer pointer missingPieces ->
  Authorized env repairer path pointer redundancy missingPieces bucketID
    getOrderLimits getPrivateKey newNodes putLimits putPrivateKey ->
  Transferred env repairer path pointer redundancy getOrderLimits
    getPrivateKey putLimits putPrivateKey segmentReader failedPieces
    successfulNodes hashes repairedPieces repairedMap ->
  afterRepair pointer missingPieces repairedPieces
    < SuccessThreshold (Redundancy (Remote pointer)) ->
  failedWereDownloaded missingPieces failedPieces ->
  let toRemove :=
    removalsOf pointer missingPieces repairedPieces repairedMap failedPieces in
  commit_fault env path (stamped env pointer) repairedPieces toRemove = None ->
  let r := Repair env repairer path (initial st) in
  List.filter is_commit (trace (fst r))
  = [EvUpdatePieces path (stamped env pointer) repairedPieces toRemove]
  /\ exists committed,
       store (fst r) !! path = Some committed
       /\ forall u,
            In u (originallyUnhealthy pointer missingPieces) ->
            (num_in (PieceNum u) (pieceNums repairedPieces) = false ->
             ~ In (PieceNum u) (pieceNums toRemove)
             /\ In u (RemotePieces (Remote committed)))
            /\ (In (PieceNum u) (pieceNums toRemove)
                <-> num_in (PieceNum u) (pieceNums repairedPieces) = true).
Proof.
  intros Has Hneeds Hauth Htr Hpartial Hdownloaded toRemove Hcommit r.
  split.
  { apply (run_single_commit _ _ _ _ _ _ _ _ _ _ _ _ _ _ _ _ _ _ _
             Has Hneeds Hauth Htr). }
  subst r.
  rewrite (run_transferred _ _ _ _ _ _ _ _ _ _ _ _ _ _ _ _ _ _ _
             Has Hneeds Hauth Htr).
  fold toRemove. rewrite Hcommit. cbn [fst store].
  eexists. split; [apply lookup_insert_eq|].
  assert (Hrm : toRemove
                = List.filter
                    (fun p => num_in (PieceNum p) (pieceNums repairedPieces))
                    (originallyUnhealthy pointer missingPieces)
                  ++ failedPieces).
  { destruct Htr as [_ _ Hcol].
    exact (removalsOf_partial _ _ _ _ _ _ _ Hcol Hpartial). }
  assert (Hiff : forall u,
             In u (originallyUnhealthy pointer missingPieces) ->
             In (PieceNum u) (pieceNums toRemove)
             <-> num_in (PieceNum u) (pieceNums repairedPieces) = true).
  { intros u Hu. rewrite Hrm. unfold pieceNums at 1.
    rewrite map_app, in_app_iff. split.
    - intros [Hin|Hin]; apply In_pieceNums in Hin as [q [Hq Hnum]].
      + apply filter_In in Hq as [_ Hq]. by rewrite <- Hnum.
      + apply Hdownloaded in Hq.
        apply originallyUnhealthy_In in Hu as [_ Hlost]. congruence.
    - intros Hrep. left. apply In_pieceNums. exists u. split; [|done].
      apply filter_In. done. }
  intros u Hu. split; [|by apply Hiff].
  intros Hnot.
  assert (Hout : ~ In (PieceNum u) (pieceNums toRemove)).
  { rewrite (Hiff u Hu). congruence. }
  split; [exact Hout|].
  cbn [set_repair_stamp set_pieces Remote RemotePieces].
  unfold updatedPieces. apply in_app_iff. left. apply filter_In.
  apply originallyUnhealthy_In in Hu as [Hstored _]. split; [exact Hstored|].
  apply negb_true_iff. apply not_true_is_false. intros Hn.
  apply num_in_In in Hn. done.
Qed.

Lemma Repair_partial_keeps_unrepaired_witness :
  let env := Scenario.sixLost Scenario.twoUploads [Scenario.piece 0] in
  let repaired := map Scenario.repairedPiece [4; 5] in
  let repairedMap : gmap Z bool := <[5 := true]> (<[4 := true]> ∅) in
  let toRemove :=
    removalsOf (Scenario.pointer 0) [4; 5; 6; 7; 8; 9] repaired repairedMap
      [Scenario.piece 0] in
  let r := Repair env Scenario.repairer Scenario.path
             (initial (Scenario.st 0)) in
  List.filter is_commit (trace (fst r))
  = [EvUpdatePieces Scenario.path (stamped env (Scenario.pointer 0))
       repaired toRemove]
  /\ exists committed,
       store (fst r) !! Scenario.path = Some committed
       /\ forall u,
            In u (originallyUnhealthy (Scenario.pointer 0)
                    [4; 5; 6; 7; 8; 9]) ->
            (num_in (PieceNum u) (pieceNums repaired) = false ->
             ~ In (PieceNum u) (pieceNums toRemove)
             /\ In u (RemotePieces (Remote committed)))
            /\ (In (PieceNum u) (pieceNums toRemove)
                <-> num_in (PieceNum u) (pieceNums repaired) = true).
Proof.
  cbv zeta.
  eapply (Repair_partial_keeps_unrepaired
            (Scenario.sixLost Scenario.twoUploads [Scenario.piece 0])
            Scenario.repairer (Scenario.st 0) Scenario.path
            (Scenario.pointer 0) Scenario.redundancy [4; 5; 6; 7; 8; 9]).
  - constructor; reflexivity.
  - constructor; vm_compute; discriminate.
  - constructor.
    + vm_compute; reflexivity.
    + vm_compute; reflexivity.
    + vm_compute; reflexivity.
    + vm_compute; reflexivity.
  - constructor.
    + vm_compute; reflexivity.
    + vm_compute; reflexivity.
    + vm_compute; reflexivity.
  - vm_compute. reflexivity.
  - intros p [<-|[]]. reflexivity.
  - reflexivity.
Defined.


(** ** Step 11: how many replacement nodes are asked for *)

(** The segment-age branch agrees with the reference definition. *)
Lemma segmentAge_reference now pointer :
  segmentAge now pointer = referenceAge now pointer.
Proof.
  unfold segmentAge, referenceAge, Since, Before.
  destruct (Z.ltb_spec (CreationDate pointer) (LastRepaired pointer)).
  - by rewrite Z.max_l by lia.
  - by rewrite Z.max_r by lia.
Qed.





(** ** Step 18: the repair stamp *)

(** C8, as amended.  When a run of [Repair] ends in a successful commit,
    the committed pointer carries the commit time as [LastRepaired] and
    the fetched repair count plus one in 32-bit arithmetic, which is
    strictly greater than the fetched count unless that was the largest
    int32; when a run ends without a successful commit, the store, and
    with it the stored repair count and repair time, is unchanged. *)
Theorem Repair_stamps_on_commit_only env repairer st path pointer :
  st !! path = Some pointer ->
  let r := Repair env repairer path (initial st) in
  (successfulCommit env path (trace (fst r)) ->
   exists committed,
     store (fst r) !! path = Some committed
     /\ RepairCount committed = int32 (RepairCount pointer + 1)
     /\ (fits32 (RepairCount pointer) ->
         RepairCount pointer < MaxInt32 ->
         RepairCount pointer < RepairCount committed)
     /\ LastRepaired committed = now_at_commit env)
  /\ (~ successfulCommit env path (trace (fst r)) -> store (fst r) = st).
Proof.
  intros Hs. cbv zeta. unfold successfulCommit.
  all_runs_from Hs; cbn [fst snd trace store].
  all: split;
    [ intros (ref & toAdd & toRemove & Hin & Hok); in_trace Hin; subst;
      try congruence
    | intros Hno; try reflexivity ].
  all: try (eexists; split; [apply lookup_insert_eq|];
            cbn [set_repair_stamp RepairCount LastRepaired];
            split; [reflexivity|split; [|reflexivity]];
            intros Hfit Hmax; rewrite int32_fits;
            [lia|unfold fits32, MinInt32, MaxInt32 in *; lia]).
  all: exfalso; apply Hno; do 3 eexists; split;
    [cbn [In]; repeat (first [left; reflexivity | right])|assumption].
Qed.

Lemma Repair_stamps_on_commit_only_witness :
  let env := Scenario.sixLost Scenario.threeUploads [] in
  let r := Repair env Scenario.repairer Scenario.path
             (initial (Scenario.st 41)) in
  successfulCommit env Scenario.path (trace (fst r))
  /\ exists committed,
       store (fst r) !! Scenario.path = Some committed
       /\ RepairCount committed = int32 (41 + 1)
       /\ (fits32 41 -> 41 < MaxInt32 -> 41 < RepairCount committed)
       /\ LastRepaired committed = Scenario.second 9200.
Proof.
  cbv zeta.
  assert (Hcommit :
    successfulCommit (Scenario.sixLost Scenario.threeUploads [])
      Scenario.path
      (trace (fst (Repair (Scenario.sixLost Scenario.threeUploads [])
                     Scenario.repairer Scenario.path
                     (initial (Scenario.st 41)))))).
  { do 3 eexists. split.
    - vm_compute. repeat (first [left; reflexivity | right]).
    - reflexivity. }
  split; [exact Hcommit|].
  exact (proj1 (Repair_stamps_on_commit_only
                  (Scenario.sixLost Scenario.threeUploads [])
                  Scenario.repairer (Scenario.st 41) Scenario.path
                  (Scenario.pointer 41) eq_refl) Hcommit).
Defined.

(** C8, as stated, fails when the fetched repair count is the largest
    int32: the commit goes through and the committed count is the
    smallest int32, which is not greater than the fetched one. *)
Lemma Repair_repair_count_wraps :
  let env := Scenario.sixLost Scenario.threeUploads [] in
  let r := Repair env Scenario.repairer Scenario.path
             (initial (Scenario.st MaxInt32)) in
  successfulCommit env Scenario.path (trace (fst r))
  /\ exists committed,
       store (fst r) !! Scenario.path = Some committed
       /\ RepairCount committed = MinInt32
       /\ ~ RepairCount (Scenario.pointer MaxInt32) < RepairCount committed.
Proof.
  cbv zeta. split.
  - do 3 eexists. split.
    + vm_compute. repeat (first [left; reflexivity | right]).
    + reflexivity.
  - eexists. split; [vm_compute; reflexivity|].
    split; [reflexivity|]. vm_compute. discriminate.
Qed.


(** ** The segment age *)

(** C9. The segment age [Repair] records after the commit is the time
    elapsed, at the moment the age is taken, since the later of
    [LastRepaired] and [CreationDate]: the branch on which of the two is
    earlier computes the reference [now − max(LastRepaired, CreationDate)],
    and the recorded value is that duration in whole seconds. *)
Theorem Repair_records_age_since_later env repairer st path pointer v :
  st !! path = Some pointer ->
  In (EvIntVal "segment_time_until_repair" v)
    (trace (fst (Repair env repairer path (initial st)))) ->
  segmentAge (now_at_age env) pointer = referenceAge (now_at_age env) pointer
  /\ v = F64.to_int64 (Seconds (referenceAge (now_at_age env) pointer))
  /\ (minDuration
        <= now_at_age env - Z.max (LastRepaired pointer) (CreationDate pointer)
        <= maxDuration ->
      segmentAge (now_at_age env) pointer
      = now_at_age env - Z.max (LastRepaired pointer) (CreationDate pointer)).
Proof.
  intros Hs Hin.
  split; [apply segmentAge_reference|]. split.
  - rewrite <- segmentAge_reference. revert Hin.
    all_runs_from Hs; cbn [fst snd trace store]; intros Hin; in_trace Hin;
      congruence.
  - intros Hrange. rewrite segmentAge_reference. by apply Sub_exact.
Qed.

Lemma Repair_records_age_since_later_witness :
  let env := Scenario.sixLost Scenario.threeUploads [] in
  let now := Scenario.second 9100 in
  In (EvIntVal "segment_time_until_repair" 2100)
    (trace (fst (Repair env Scenario.repairer Scenario.path
                   (initial (Scenario.st 0)))))
  /\ segmentAge now (Scenario.pointer 0) = referenceAge now (Scenario.pointer 0)
  /\ 2100 = F64.to_int64 (Seconds (referenceAge now (Scenario.pointer 0)))
  /\ (minDuration
        <= now - Z.max (Scenario.second 7000) (Scenario.second 5000)
        <= maxDuration ->
      segmentAge now (Scenario.pointer 0)
      = now - Z.max (Scenario.second 7000) (Scenario.second 5000)).
Proof.
  cbv zeta.
  assert (Hin :
    In (EvIntVal "segment_time_until_repair" 2100)
      (trace (fst (Repair (Scenario.sixLost Scenario.threeUploads [])
                     Scenario.repairer Scenario.path
                     (initial (Scenario.st 0)))))).
  { vm_compute. repeat (first [left; reflexivity | right]). }
  split; [exact Hin|].
  exact (Repair_records_age_since_later
           (Scenario.sixLost Scenario.threeUploads []) Scenario.repairer
           (Scenario.st 0) Scenario.path (Scenario.pointer 0) 2100 eq_refl
           Hin).
Defined.


(** * The scenarios of the specification, run on the model *)

(** Scenario A: four pieces missing, six healthy, above the threshold 5. *)
Example scenario_A :
  let r := Repair (Scenario.env [6; 7; 8; 9] [] [] None None)
             Scenario.repairer Scenario.path (initial (Scenario.st 0)) in
  outcome r = Some {| shouldDelete := true; err := None |}
  /\ existsb is_further_call (trace (fst r)) = false.
Proof. split; reflexivity. Qed.

(** Scenario B: eight pieces missing, two healthy, below the minimum 3. *)
Example scenario_B :
  let r := Repair (Scenario.env [2; 3; 4; 5; 6; 7; 8; 9] [] [] None None)
             Scenario.repairer Scenario.path (initial (Scenario.st 0)) in
  exists ie,
    outcome r = Some {| shouldDelete := true; err := Some (Irreparable ie) |}
    /\ piecesAvailable ie = 2 /\ piecesRequired ie = 3.
Proof. eexists. split; [reflexivity|split; reflexivity]. Qed.

(** Scenario C: six pieces missing, three uploads succeed: a full repair,
    all six unhealthy pieces go and three pieces are added. *)
Example scenario_C :
  let r := Repair (Scenario.sixLost Scenario.threeUploads [])
             Scenario.repairer Scenario.path (initial (Scenario.st 0)) in
  outcome r = Some {| shouldDelete := true; err := None |}
  /\ meters (trace (fst r))
     = ["repair_attempts"; "repair_success"]%string
  /\ commitDiffs (trace (fst r)) = [([4; 5; 6], [4; 5; 6; 7; 8; 9])].
Proof. vm_compute. done. Qed.

(** Scenario D: as C, but only one upload succeeds: counted as failed,
    committed all the same, and only the replaced piece number goes. *)
Example scenario_D :
  let r := Repair (Scenario.sixLost Scenario.oneUpload [])
             Scenario.repairer Scenario.path (initial (Scenario.st 0)) in
  outcome r = Some {| shouldDelete := true; err := None |}
  /\ meters (trace (fst r))
     = ["repair_attempts"; "repair_failed"]%string
  /\ commitDiffs (trace (fst r)) = [([4], [4])].
Proof. vm_compute. done. Qed.


(** * Further properties of the repairer *)

(** ** Leaving before the repair starts *)

(** X1. When the segment is no longer in the metainfo database, [Repair]
    returns [(true, nil)] after the fetch alone: it marks the two meters,
    asks no other collaborator and leaves the store as it was. *)
Theorem Repair_segment_deleted env repairer st path :
  get_fault env = None ->
  st !! path = None ->
  Repair env repairer path (initial st)
  = ({| trace := [EvMetainfoGet path;
                  EvMeter "repair_unnecessary";
                  EvMeter "segment_deleted_before_repair"];
        store := st |},
     Return {| shouldDelete := true; err := None |}).
Proof. intros Hg Hs. run_repair. answer Hg. answer Hs. reflexivity. Qed.

Lemma Repair_segment_deleted_witness :
  Repair (Scenario.sixLost [] []) Scenario.repairer Scenario.shortPath
    (initial (Scenario.st 0))
  = ({| trace := [EvMetainfoGet Scenario.shortPath;
                  EvMeter "repair_unnecessary";
                  EvMeter "segment_deleted_before_repair"];
        store := Scenario.st 0 |},
     Return {| shouldDelete := true; err := None |}).
Proof.
  apply (Repair_segment_deleted (Scenario.sixLost [] []) Scenario.repairer
           (Scenario.st 0) Scenario.shortPath); reflexivity.
Defined.

(** X2. When the fetch fails with any error other than not-found,
    [Repair] returns [(false, metainfoGetError)] wrapping that error, so
    the segment stays queued; nothing but the fetch has been called. *)
Theorem Repair_fetch_failed env repairer st path e :
  get_fault env = Some e ->
  Repair env repairer path (initial st)
  = ({| trace := [EvMetainfoGet path]; store := st |},
     Return {| shouldDelete := false;
               err := Some (Classed metainfoGetError "" (Some e)) |}).
Proof. intros Hg. run_repair. answer Hg. reflexivity. Qed.

Lemma Repair_fetch_failed_witness :
  let env := withGetFault (Some (External "connection reset"))
               (Scenario.sixLost [] []) in
  Repair env Scenario.repairer Scenario.path (initial (Scenario.st 0))
  = ({| trace := [EvMetainfoGet Scenario.path]; store := Scenario.st 0 |},
     Return {| shouldDelete := false;
               err := Some (Classed metainfoGetError ""
                              (Some (External "connection reset"))) |}).
Proof.
  apply (Repair_fetch_failed
           (withGetFault (Some (External "connection reset"))
              (Scenario.sixLost [] []))
           Scenario.repairer (Scenario.st 0) Scenario.path
           (External "connection reset")).
  reflexivity.
Defined.

(** X3. A pointer that is not a remote segment is refused: [Repair]
    returns [(true, invalidRepairError)] without asking the overlay
    anything, whatever its expiration date and pieces. *)
Theorem Repair_inline_segment env repairer st path pointer :
  get_fault env = None ->
  st !! path = Some pointer ->
  Type_ pointer = Pointer_INLINE ->
  Repair env repairer path (initial st)
  = ({| trace := [EvMetainfoGet path]; store := st |},
     Return {| shouldDelete := true;
               err := Some (Classed invalidRepairError
                              "cannot repair inline segment" None) |}).
Proof.
  intros Hg Hs Hi. run_repair. answer Hg. answer Hs. answer Hi. reflexivity.
Qed.

Lemma Repair_inline_segment_witness :
  let st : Store := {[ Scenario.path := Cases.inlinePointer ]} in
  Repair (Scenario.sixLost [] []) Scenario.repairer Scenario.path (initial st)
  = ({| trace := [EvMetainfoGet Scenario.path]; store := st |},
     Return {| shouldDelete := true;
               err := Some (Classed invalidRepairError
                              "cannot repair inline segment" None) |}).
Proof.
  apply (Repair_inline_segment (Scenario.sixLost [] []) Scenario.repairer
           {[ Scenario.path := Cases.inlinePointer ]} Scenario.path
           Cases.inlinePointer); reflexivity.
Defined.

(** X4. A remote pointer whose expiration date is set and lies before the
    clock reading is not repaired: [Repair] marks [repair_expired] and
    returns [(true, nil)] without asking which pieces are missing. *)
Theorem Repair_expired_segment env repairer st path pointer :
  get_fault env = None ->
  st !! path = Some pointer ->
  Type_ pointer = Pointer_REMOTE ->
  ExpirationDate pointer <> 0 ->
  ExpirationDate pointer < now_at_expiry_check env ->
  Repair env repairer path (initial st)
  = ({| trace := [EvMetainfoGet path; EvMeter "repair_expired"];
        store := st |},
     Return {| shouldDelete := true; err := None |}).
Proof.
  intros Hg Hs Hr Hset Hpast. run_repair. answer Hg. answer Hs. answer Hr.
  unfold IsZero, Before.
  destruct (Z.eqb_spec (ExpirationDate pointer) 0); [done|].
  destruct (Z.ltb_spec (ExpirationDate pointer) (now_at_expiry_check env));
    [reflexivity|lia].
Qed.

Lemma Repair_expired_segment_witness :
  let st : Store := {[ Scenario.path := Cases.expiringPointer ]} in
  Repair (Scenario.sixLost [] []) Scenario.repairer Scenario.path (initial st)
  = ({| trace := [EvMetainfoGet Scenario.path; EvMeter "repair_expired"];
        store := st |},
     Return {| shouldDelete := true; err := None |}).
Proof.
  apply (Repair_expired_segment (Scenario.sixLost [] []) Scenario.repairer
           {[ Scenario.path := Cases.expiringPointer ]} Scenario.path
           Cases.expiringPointer).
  - reflexivity.
  - reflexivity.
  - reflexivity.
  - vm_compute. discriminate.
  - reflexivity.
Defined.

(** X5. A remote pointer whose expiration date is unset (the zero time),
    or not before the clock reading, passes the expiration test however
    late the clock is: once its redundancy scheme is accepted, [Repair]
    asks the overlay which of its pieces are missing. *)
Theorem Repair_unexpired_proceeds env repairer st path pointer redundancy :
  get_fault env = None ->
  st !! path = Some pointer ->
  Type_ pointer = Pointer_REMOTE ->
  ExpirationDate pointer = 0
  \/ now_at_expiry_check env <= ExpirationDate pointer ->
  NewRedundancyStrategyFromProto env (Redundancy (Remote pointer))
  = inr redundancy ->
  In (EvGetMissingPieces (RemotePieces (Remote pointer)))
    (trace (fst (Repair env repairer path (initial st)))).
Proof.
  intros Hg Hs Hr Hlive Hred.
  assert (Hl : negb (IsZero (ExpirationDate pointer))
               && Before (ExpirationDate pointer) (now_at_expiry_check env)
               = false).
  { unfold IsZero, Before.
    destruct (Z.eqb_spec (ExpirationDate pointer) 0); [done|].
    destruct (Z.ltb_spec (ExpirationDate pointer) (now_at_expiry_check env));
      [lia|done]. }
  run_repair. answer Hg. answer Hs. answer Hr. answer Hl. answer Hred.
  all_runs; cbn [fst trace In]; tauto.
Qed.

Lemma Repair_unexpired_proceeds_witness :
  let env := withExpiryClock (Scenario.second 1000000000000)
               (Scenario.sixLost [] []) in
  In (EvGetMissingPieces (map Scenario.piece Scenario.slots))
    (trace (fst (Repair env Scenario.repairer Scenario.path
                   (initial (Scenario.st 0))))).
Proof.
  apply (Repair_unexpired_proceeds
           (withExpiryClock (Scenario.second 1000000000000)
              (Scenario.sixLost [] []))
           Scenario.repairer (Scenario.st 0) Scenario.path
           (Scenario.pointer 0) Scenario.redundancy).
  - reflexivity.
  - reflexivity.
  - reflexivity.
  - left. reflexivity.
  - reflexivity.
Defined.

(** X6. When the pointer's redundancy scheme is rejected, [Repair] returns
    [(true, invalidRepairError)] wrapping the cause, before the overlay is
    asked anything. *)
Theorem Repair_invalid_redundancy env repairer st path pointer e :
  get_fault env = None ->
  st !! path = Some pointer ->
  Type_ pointer = Pointer_REMOTE ->
  ExpirationDate pointer = 0
  \/ now_at_expiry_check env <= ExpirationDate pointer ->
  NewRedundancyStrategyFromProto env (Redundancy (Remote pointer)) = inl e ->
  Repair env repairer path (initial st)
  = ({| trace := [EvMetainfoGet path; EvMeter "repair_attempts";
                  EvIntVal "repair_segment_size" (SegmentSize pointer)];
        store := st |},
     Return {| shouldDelete := true;
               err := Some (Classed invalidRepairError
                              "invalid redundancy strategy" (Some e)) |}).
Proof.
  intros Hg Hs Hr Hlive Hred.
  assert (Hl : negb (IsZero (ExpirationDate pointer))
               && Before (ExpirationDate pointer) (now_at_expiry_check env)
               = false).
  { unfold IsZero, Before.
    destruct (Z.eqb_spec (ExpirationDate pointer) 0); [done|].
    destruct (Z.ltb_spec (ExpirationDate pointer) (now_at_expiry_check env));
      [lia|done]. }
  run_repair. answer Hg. answer Hs. answer Hr. answer Hl. answer Hred.
  reflexivity.
Qed.

Lemma Repair_invalid_redundancy_witness :
  let env := withRedundancy (fun _ => inl (External "k > n"))
               (Scenario.sixLost [] []) in
  Repair env Scenario.repairer Scenario.path (initial (Scenario.st 0))
  = ({| trace := [EvMetainfoGet Scenario.path; EvMeter "repair_attempts";
                  EvIntVal "repair_segment_size" 1024];
        store := Scenario.st 0 |},
     Return {| shouldDelete := true;
               err := Some (Classed invalidRepairError
                              "invalid redundancy strategy"
                              (Some (External "k > n"))) |}).
Proof.
  apply (Repair_invalid_redundancy
           (withRedundancy (fun _ => inl (External "k > n"))
              (Scenario.sixLost [] []))
           Scenario.repairer (Scenario.st 0) Scenario.path
           (Scenario.pointer 0) (External "k > n")).
  - reflexivity.
  - reflexivity.
  - reflexivity.
  - left. reflexivity.
  - reflexivity.
Defined.

(** X7. When the overlay cannot say which pieces are missing, [Repair]
    returns [(false, overlayQueryError)] wrapping the cause: the segment
    stays queued, no threshold is looked at and nothing is authorized. *)
Theorem Repair_missing_query_failed
    env repairer st path pointer redundancy e :
  get_fault env = None ->
  st !! path = Some pointer ->
  Type_ pointer = Pointer_REMOTE ->
  ExpirationDate pointer = 0
  \/ now_at_expiry_check env <= ExpirationDate pointer ->
  NewRedundancyStrategyFromProto env (Redundancy (Remote pointer))
  = inr redundancy ->
  GetMissingPieces env (RemotePieces (Remote pointer)) = inl e ->
  Repair env repairer path (initial st)
  = ({| trace := assessTrace path pointer; store := st |},
     Return {| shouldDelete := false;
               err := Some (Classed overlayQueryError
                              "error identifying missing pieces"
                              (Some e)) |}).
Proof.
  intros Hg Hs Hr Hlive Hred Hm.
  assert (Hl : negb (IsZero (ExpirationDate pointer))
               && Before (ExpirationDate pointer) (now_at_expiry_check env)
               = false).
  { unfold IsZero, Before.
    destruct (Z.eqb_spec (ExpirationDate pointer) 0); [done|].
    destruct (Z.ltb_spec (ExpirationDate pointer) (now_at_expiry_check env));
      [lia|done]. }
  run_repair. answer Hg. answer Hs. answer Hr. answer Hl. answer Hred.
  answer Hm. reflexivity.
Qed.

Lemma Repair_missing_query_failed_witness :
  let env := withMissingQuery (fun _ => inl (External "overlay down"))
               (Scenario.sixLost [] []) in
  Repair env Scenario.repairer Scenario.path (initial (Scenario.st 0))
  = ({| trace := assessTrace Scenario.path (Scenario.pointer 0);
        store := Scenario.st 0 |},
     Return {| shouldDelete := false;
               err := Some (Classed overlayQueryError
                              "error identifying missing pieces"
                              (Some (External "overlay down"))) |}).
Proof.
  apply (Repair_missing_query_failed
           (withMissingQuery (fun _ => inl (External "overlay down"))
              (Scenario.sixLost [] []))
           Scenario.repairer (Scenario.st 0) Scenario.path
           (Scenario.pointer 0) Scenario.redundancy (External "overlay down")).
  - reflexivity.
  - reflexivity.
  - reflexivity.
  - left. reflexivity.
  - reflexivity.
  - reflexivity.
Defined.


(** ** Transient failures while preparing the transfer *)

(** X8. Once the repair is under way, a failure to issue the download
    order limits, to find replacement nodes, or to issue the upload order
    limits makes [Repair] return [(false, err)] of the class
    [orderLimitFailureError], [overlayQueryError] and
    [orderLimitFailureError] respectively; in each case nothing has been
    transferred or committed and the store is as it was. *)
Theorem Repair_preparation_failed
    env repairer st path pointer redundancy missingPieces bucketID :
  Assessed env st path pointer redundancy missingPieces ->
  NeedsRepair repairer pointer missingPieces ->
  createBucketID path = inr bucketID ->
  let r := Repair env repairer path (initial st) in
  let healthy := healthyPieces (partsOf pointer missingPieces) in
  let request := requestOf repairer pointer redundancy missingPieces in
  let untouched :=
    existsb is_transfer (trace (fst r)) = false
    /\ existsb is_commit (trace (fst r)) = false
    /\ store (fst r) = st in
  (forall e,
     CreateGetRepairOrderLimits env bucketID pointer healthy = inl e ->
     outcome r
     = Some {| shouldDelete := false;
               err := Some (Classed orderLimitFailureError
                              "could not create GET_REPAIR order limits"
                              (Some e)) |}
     /\ existsb is_node_selection (trace (fst r)) = false
     /\ untouched)
  /\ (forall limits e,
        CreateGetRepairOrderLimits env bucketID pointer healthy = inr limits ->
        FindStorageNodesForRepair env request = inl e ->
        outcome r
        = Some {| shouldDelete := false;
                  err := Some (Classed overlayQueryError "" (Some e)) |}
        /\ untouched)
  /\ (forall getOrderLimits getPrivateKey newNodes e,
        CreateGetRepairOrderLimits env bucketID pointer healthy
        = inr (getOrderLimits, getPrivateKey) ->
        FindStorageNodesForRepair env request = inr newNodes ->
        CreatePutRepairOrderLimits env bucketID pointer getOrderLimits newNodes
        = inl e ->
        outcome r
        = Some {| shouldDelete := false;
                  err := Some (Classed orderLimitFailureError
                                 "could not create PUT_REPAIR order limits"
                                 (Some e)) |}
        /\ untouched).
Proof.
  intros Has Hneeds Hbucket r healthy request untouched.
  subst untouched r healthy request. split; [|split].
  - intros e Hget. run_assessed Has. run_needed Hneeds. answer Hbucket.
    answer Hget. done.
  - intros [limits key] e Hget Hfind. run_assessed Has. run_needed Hneeds.
    answer Hbucket. answer Hget. answer Hfind. done.
  - intros gl gk nn e Hget Hfind Hput. run_assessed Has. run_needed Hneeds.
    answer Hbucket. answer Hget. answer Hfind. answer Hput. done.
Qed.

Lemma Repair_preparation_failed_witness :
  let env := Scenario.env [4; 5; 6; 7; 8; 9] [] []
               (Some (External "not enough nodes")) None in
  let r := Repair env Scenario.repairer Scenario.path
             (initial (Scenario.st 0)) in
  outcome r
  = Some {| shouldDelete := false;
            err := Some (Classed overlayQueryError ""
                           (Some (External "not enough nodes"))) |}
  /\ existsb is_transfer (trace (fst r)) = false
  /\ existsb is_commit (trace (fst r)) = false
  /\ store (fst r) = Scenario.st 0.
Proof.
  cbv zeta.
  eapply (proj1 (proj2 (Repair_preparation_failed
            (Scenario.env [4; 5; 6; 7; 8; 9] [] []
               (Some (External "not enough nodes")) None)
            Scenario.repairer (Scenario.st 0) Scenario.path
            (Scenario.pointer 0) Scenario.redundancy [4; 5; 6; 7; 8; 9]
            (list_byte_of_string "project/bucket")
            ltac:(constructor; reflexivity)
            ltac:(constructor; vm_compute; discriminate)
            eq_refl))).
  - vm_compute. reflexivity.
  - reflexivity.
Defined.

(** ** What every run has in common *)

(** X9. The main calls of every run of [Repair] (fetch, missing-piece
    query, download limits, node selection, upload limits, download,
    upload, commit) are an initial part of that fixed sequence: each
    collaborator is called at most once, in this order, and a call is
    made only after all the calls before it in the sequence.  So nothing
    is committed that was not uploaded, and nothing uploaded that was not
    downloaded and authorized. *)
Theorem Repair_follows_script env repairer st path :
  mainCalls (trace (fst (Repair env repairer path (initial st))))
    `prefix_of` script.
Proof.
  all_runs; cbn [fst trace]; unfold mainCalls, script; cbn;
    eexists; reflexivity.
Qed.

(** X10. Whenever [Repair] tells its caller to keep the segment in the
    queue, it also reports an error: the result [(false, nil)] never
    occurs. *)
Theorem Repair_requeue_has_error env repairer st path res :
  outcome (Repair env repairer path (initial st)) = Some res ->
  shouldDelete res = false ->
  err res <> None.
Proof.
  all_runs; cbn [snd]; intros [= <-]; cbn [shouldDelete err];
    try discriminate; intros _;
    try (destruct (reader_Close env); discriminate).
Qed.

Lemma Repair_requeue_has_error_witness :
  let env := Scenario.env [4; 5; 6; 7; 8; 9] [] []
               (Some (External "not enough nodes")) None in
  let res := {| shouldDelete := false;
                err := Some (Classed overlayQueryError ""
                               (Some (External "not enough nodes"))) |} in
  outcome (Repair env Scenario.repairer Scenario.path
             (initial (Scenario.st 0)))
  = Some res
  /\ shouldDelete res = false
  /\ err res <> None.
Proof.
  cbv zeta. split; [vm_compute; reflexivity|]. split; [reflexivity|].
  apply (Repair_requeue_has_error
           (Scenario.env [4; 5; 6; 7; 8; 9] [] []
              (Some (External "not enough nodes")) None)
           Scenario.repairer (Scenario.st 0) Scenario.path).
  - vm_compute. reflexivity.
  - reflexivity.
Defined.

(** X11. The segment reader is closed exactly when the upload was
    started: a run that never calls the upload never closes the reader,
    and a run that calls it closes the reader once, as the very last
    thing it does, on every way out (upload failure, commit failure,
    success, panic). *)
Theorem Repair_closes_reader_last env repairer st path :
  let tr := trace (fst (Repair env repairer path (initial st))) in
  (existsb is_upload tr = false -> existsb is_close tr = false)
  /\ (existsb is_upload tr = true ->
      exists before,
        tr = before ++ [EvReaderClose] /\ existsb is_close before = false).
Proof.
  cbv zeta. all_runs; cbn [fst trace]; split; intros Hup;
    try discriminate Hup; try reflexivity;
    match goal with
    | |- exists before, ?tr = _ /\ _ =>
        exists (removelast tr); split; reflexivity
    end.
Qed.


(** ** The audit update *)

(** X12. [updateAuditFailStatus] does not call the overlay for an empty
    list of nodes.  For a non-empty list it makes one call with one
    request per node, in order, each marked as up and as an audit
    failure; it reports no error exactly when the overlay returned no
    error and no node it could not update, and otherwise the number of
    nodes the overlay could not update together with an error.  It never
    makes [Repair] return. *)
Theorem updateAuditFailStatus_contract env nodeIDs s failed updErr :
  BatchUpdateStats env (auditRequests nodeIDs) = (failed, updErr) ->
  exists count err,
    updateAuditFailStatus env nodeIDs s
    = ({| trace := trace s
                   ++ (if decide (nodeIDs = []) then []
                       else [EvBatchUpdateStats (auditRequests nodeIDs)]);
          store := store s |},
       Continue (count, err))
    /\ (err = None <-> nodeIDs = [] \/ (updErr = None /\ failed = []))
    /\ (err = None -> count = 0)
    /\ (err <> None -> count = len failed)
    /\ length (auditRequests nodeIDs) = length nodeIDs
    /\ Forall (fun req => IsUp req = true /\ ur_AuditOutcome req = AuditFailure)
         (auditRequests nodeIDs)
    /\ map ur_NodeID (auditRequests nodeIDs) = nodeIDs.
Proof.
  intros Hupd.
  assert (Hshape :
    length (auditRequests nodeIDs) = length nodeIDs
    /\ Forall (fun req => IsUp req = true /\ ur_AuditOutcome req = AuditFailure)
         (auditRequests nodeIDs)
    /\ map ur_NodeID (auditRequests nodeIDs) = nodeIDs).
  { unfold auditRequests. split; [apply length_map|]. split.
    - apply List.Forall_forall. intros req Hin.
      apply in_map_iff in Hin as [n [<- _]]. done.
    - rewrite List.map_map. cbn. apply List.map_id. }
  unfold updateAuditFailStatus. fold (auditRequests nodeIDs).
  destruct nodeIDs as [|n rest].
  - exists 0, None. cbn. rewrite app_nil_r. destruct s. split; [done|].
    split; [tauto|]. split; [done|]. split; [done|]. exact Hshape.
  - assert (Hpos : (0 <? len (auditRequests (n :: rest))) = true).
    { unfold auditRequests, len. cbn [map length]. apply Z.ltb_lt. lia. }
    rewrite Hpos. run_repair. rewrite Hupd. run_repair.
    destruct (decide (n :: rest = [])) as [Hnil|_]; [discriminate Hnil|].
    destruct updErr as [e|]; cbn.
    + eexists _, _. split; [reflexivity|].
      split; [split; [discriminate|intros [?|[? _]]; discriminate]|].
      split; [discriminate|]. split; [done|]. exact Hshape.
    + destruct failed as [|f fs]; cbn.
      * eexists _, _. split; [reflexivity|].
        split; [split; [auto|done]|]. split; [done|]. split; [done|].
        exact Hshape.
      * eexists _, _. split; [reflexivity|].
        split; [split; [discriminate|intros [?|[_ ?]]; discriminate]|].
        split; [discriminate|]. split; [done|]. exact Hshape.
Qed.

Lemma updateAuditFailStatus_contract_witness :
  exists count err,
    updateAuditFailStatus (Scenario.sixLost [] []) [100; 101] (initial ∅)
    = ({| trace := [EvBatchUpdateStats (auditRequests [100; 101])];
          store := ∅ |},
       Continue (count, err))
    /\ (err = None
        <-> [100; 101] = ([] : list NodeID)
            \/ ((None : option error) = None /\ [] = ([] : list NodeID)))
    /\ (err = None -> count = 0)
    /\ (err <> None -> count = len ([] : list NodeID))
    /\ length (auditRequests [100; 101]) = 2%nat
    /\ Forall (fun req => IsUp req = true /\ ur_AuditOutcome req = AuditFailure)
         (auditRequests [100; 101])
    /\ map ur_NodeID (auditRequests [100; 101]) = [100; 101].
Proof.
  apply (updateAuditFailStatus_contract (Scenario.sixLost [] []) [100; 101]
           (initial ∅) [] None).
  reflexivity.
Defined.

(** X13. The answer of the overlay to the audit update has no influence on
    the repair: replacing it by any other answer changes neither the calls
    [Repair] makes, nor what it commits, nor what it returns. *)
Theorem Repair_ignores_audit_answer update env repairer st path :
  Repair (withStats update env) repairer path (initial st)
  = Repair env repairer path (initial st).
Proof.
  unfold withStats.
  repeat (run_repair;
    cbn [get_fault now_at_expiry_check now_at_age now_at_commit
         NewRedundancyStrategyFromProto GetMissingPieces
         CreateGetRepairOrderLimits FindStorageNodesForRepair
         CreatePutRepairOrderLimits ec_Get BatchUpdateStats ec_Repair
         reader_Close commit_fault];
    match goal with
    | |- context [match ?x with _ => _ end] =>
        lazymatch x with
        | context [match _ with _ => _ end] => fail
        | _ => destruct x eqn:?
        end
    end);
  simplify_eq; reflexivity.
Qed.


(** ** What is authorized, asked for and handed on *)

(** X14. Download order limits are only ever requested for the healthy
    pieces, the pointer's pieces whose number the overlay did not report
    missing, in pointer order, and under the bucket ID derived from the
    path. *)
Theorem Repair_downloads_healthy_pieces_only
    env repairer st path pointer redundancy missingPieces bucketID pieces :
  Assessed env st path pointer redundancy missingPieces ->
  In (EvCreateGetRepairOrderLimits bucketID pieces)
    (trace (fst (Repair env repairer path (initial st)))) ->
  pieces = originallyHealthy pointer missingPieces
  /\ createBucketID path = inr bucketID.
Proof.
  intros Has. rewrite <- healthy_originally.
  run_assessed Has. all_runs; intros Hin; in_trace Hin; subst;
    split; congruence.
Qed.

Lemma Repair_downloads_healthy_pieces_only_witness :
  let env := Scenario.sixLost Scenario.threeUploads [] in
  let bucketID := list_byte_of_string "project/bucket" in
  let pieces := map Scenario.piece [0; 1; 2; 3] in
  In (EvCreateGetRepairOrderLimits bucketID pieces)
    (trace (fst (Repair env Scenario.repairer Scenario.path
                   (initial (Scenario.st 0)))))
  /\ pieces = originallyHealthy (Scenario.pointer 0) [4; 5; 6; 7; 8; 9]
  /\ createBucketID Scenario.path = inr bucketID.
Proof.
  cbv zeta.
  assert (Hin :
    In (EvCreateGetRepairOrderLimits (list_byte_of_string "project/bucket")
          (map Scenario.piece [0; 1; 2; 3]))
      (trace (fst (Repair (Scenario.sixLost Scenario.threeUploads [])
                     Scenario.repairer Scenario.path
                     (initial (Scenario.st 0)))))).
  { vm_compute. repeat (first [left; reflexivity | right]). }
  split; [exact Hin|].
  exact (Repair_downloads_healthy_pieces_only
           (Scenario.sixLost Scenario.threeUploads []) Scenario.repairer
           (Scenario.st 0) Scenario.path (Scenario.pointer 0)
           Scenario.redundancy [4; 5; 6; 7; 8; 9] _ _
           ltac:(constructor; reflexivity) Hin).
Defined.

(** X15. Whenever [Repair] asks the overlay for replacement nodes, it
    excludes the node of every piece of the pointer, healthy or not, one
    entry per piece and in pointer order. *)
Theorem Repair_excludes_all_current_nodes
    env repairer st path pointer redundancy missingPieces req :
  Assessed env st path pointer redundancy missingPieces ->
  In (EvFindStorageNodesForRepair req)
    (trace (fst (Repair env repairer path (initial st)))) ->
  ExcludedIDs req = map NodeId (RemotePieces (Remote pointer)).
Proof.
  intros Has.
  rewrite <- (excludeNodeIDs_all (sliceToSet missingPieces)).
  run_assessed Has. all_runs; intros Hin; in_trace Hin; subst; reflexivity.
Qed.

Lemma Repair_excludes_all_current_nodes_witness :
  let req := {| RequestedCount := 4;
                ExcludedIDs := [100; 101; 102; 103; 104; 105; 106; 107; 108;
                                109] |} in
  In (EvFindStorageNodesForRepair req)
    (trace (fst (Repair (Scenario.sixLost Scenario.threeUploads [])
                   Scenario.repairer Scenario.path
                   (initial (Scenario.st 0)))))
  /\ ExcludedIDs req
     = map NodeId (RemotePieces (Remote (Scenario.pointer 0))).
Proof.
  cbv zeta.
  assert (Hin :
    In (EvFindStorageNodesForRepair
          {| RequestedCount := 4;
             ExcludedIDs := [100; 101; 102; 103; 104; 105; 106; 107; 108;
                             109] |})
      (trace (fst (Repair (Scenario.sixLost Scenario.threeUploads [])
                     Scenario.repairer Scenario.path
                     (initial (Scenario.st 0)))))).
  { vm_compute. repeat (first [left; reflexivity | right]). }
  split; [exact Hin|].
  exact (Repair_excludes_all_current_nodes
           (Scenario.sixLost Scenario.threeUploads []) Scenario.repairer
           (Scenario.st 0) Scenario.path (Scenario.pointer 0)
           Scenario.redundancy [4; 5; 6; 7; 8; 9] _
           ltac:(constructor; reflexivity) Hin).
Defined.



(** ** The removal list, whatever the class of the repair *)

(** X17. In every repair that gets to the commit, full or partial, every
    piece that failed verification during the download is on the removal
    list, and the removal list holds nothing else than failed pieces and
    originally unhealthy pieces: a healthy piece that was not reported as
    failed is never removed.  The pieces added are the repaired ones. *)
Theorem Repair_removal_list_contents
    env repairer st path pointer redundancy missingPieces
    bucketID getOrderLimits getPrivateKey newNodes putLimits putPrivateKey
    segmentReader failedPieces successfulNodes hashes
    repairedPieces repairedMap :
  Assessed env st path pointer redundancy missingPieces ->
  NeedsRepair repairer pointer missingPieces ->
  Authorized env repairer path pointer redundancy missingPieces bucketID
    getOrderLimits getPrivateKey newNodes putLimits putPrivateKey ->
  Transferred env repairer path pointer redundancy getOrderLimits
    getPrivateKey putLimits putPrivateKey segmentReader failedPieces
    successfulNodes hashes repairedPieces repairedMap ->
  exists toRemove,
    List.filter is_commit
      (trace (fst (Repair env repairer path (initial st))))
    = [EvUpdatePieces path (stamped env pointer) repairedPieces toRemove]
    /\ (forall p, In p failedPieces -> In p toRemove)
    /\ (forall p, In p toRemove ->
                  In p (originallyUnhealthy pointer missingPieces)
                  \/ In p failedPieces)
    /\ (forall p, In p (originallyHealthy pointer missingPieces) ->
                  ~ In p failedPieces -> ~ In p toRemove).
Proof.
  intros Has Hneeds Hauth Htr. eexists. split.
  { apply (run_single_commit _ _ _ _ _ _ _ _ _ _ _ _ _ _ _ _ _ _ _
             Has Hneeds Hauth Htr). }
  assert (Hsub : forall p,
            In p (removalsOf pointer missingPieces repairedPieces repairedMap
                    failedPieces) ->
            In p (originallyUnhealthy pointer missingPieces)
            \/ In p failedPieces).
  { intros p. unfold removalsOf, computeToRemove.
    rewrite unhealthy_originally, in_app_iff.
    destruct (_ <=? _); [tauto|].
    rewrite filter_In. tauto. }
  split; [|split; [exact Hsub|]].
  - intros p Hp. unfold removalsOf, computeToRemove. apply in_app_iff. tauto.
  - intros p Hhealthy Hnot Hin. apply Hsub in Hin as [Hin|Hin]; [|done].
    apply originallyHealthy_In in Hhealthy as [_ Hh].
    apply originallyUnhealthy_In in Hin as [_ Hu]. congruence.
Qed.

Lemma Repair_removal_list_contents_witness :
  let env := Scenario.sixLost Scenario.twoUploads [Scenario.piece 0] in
  let repaired := map Scenario.repairedPiece [4; 5] in
  let failed := [Scenario.piece 0] in
  let r := Repair env Scenario.repairer Scenario.path
             (initial (Scenario.st 0)) in
  exists toRemove,
    List.filter is_commit (trace (fst r))
    = [EvUpdatePieces Scenario.path (stamped env (Scenario.pointer 0))
         repaired toRemove]
    /\ (forall p, In p failed -> In p toRemove)
    /\ (forall p, In p toRemove ->
                  In p (originallyUnhealthy (Scenario.pointer 0)
                          [4; 5; 6; 7; 8; 9])
                  \/ In p failed)
    /\ (forall p, In p (originallyHealthy (Scenario.pointer 0)
                          [4; 5; 6; 7; 8; 9]) ->
                  ~ In p failed -> ~ In p toRemove).
Proof.
  cbv zeta.
  eapply (Repair_removal_list_contents
            (Scenario.sixLost Scenario.twoUploads [Scenario.piece 0])
            Scenario.repairer (Scenario.st 0) Scenario.path
            (Scenario.pointer 0) Scenario.redundancy [4; 5; 6; 7; 8; 9]).
  - constructor; reflexivity.
  - constructor; vm_compute; discriminate.
  - constructor.
    + vm_compute; reflexivity.
    + vm_compute; reflexivity.
    + vm_compute; reflexivity.
    + vm_compute; reflexivity.
  - constructor.
    + vm_compute; reflexivity.
    + vm_compute; reflexivity.
    + vm_compute; reflexivity.
Defined.


(** ** The bookkeeping functions *)

(** X18. [sliceToSet] holds exactly the values of the slice, each mapped
    to true: a key is present if and only if it occurs in the slice, no
    key is mapped to false, and duplicates collapse, so the set is never
    larger than the slice. *)
Theorem sliceToSet_contents slice :
  (forall k, sliceToSet slice !! k = Some true <-> In k slice)
  /\ (forall k, sliceToSet slice !! k = None <-> ~ In k slice)
  /\ (size (sliceToSet slice) <= length slice)%nat.
Proof.
  unfold sliceToSet.
  assert (Hgen : forall (m : gmap Z bool),
            (forall k v, m !! k = Some v -> v = true) ->
            let res := fold_left (fun set value => <[value := true]> set)
                         slice m in
            (forall k, res !! k = Some true
                       <-> In k slice \/ m !! k = Some true)
            /\ (forall k, res !! k = None <-> ~ In k slice /\ m !! k = None)
            /\ (size res <= length slice + size m)%nat).
  { induction slice as [|v rest IH]; intros m Htrue; cbn.
    - split; [tauto|]. split; [tauto|lia].
    - destruct (IH (<[v := true]> m)) as (H1 & H2 & H3).
      { intros k b. destruct (decide (v = k)) as [->|Hne].
        - rewrite lookup_insert_eq. congruence.
        - rewrite lookup_insert_ne by done. apply Htrue. }
      split; [|split].
      + intros k. rewrite H1. destruct (decide (v = k)) as [->|Hne].
        * rewrite lookup_insert_eq. tauto.
        * rewrite lookup_insert_ne by done. split; [tauto|].
          intros [[?|?]|?]; tauto.
      + intros k. rewrite H2. destruct (decide (v = k)) as [->|Hne].
        * rewrite lookup_insert_eq. split; [intros [_ ?]; done|tauto].
        * rewrite lookup_insert_ne by done. tauto.
      + etrans; [exact H3|].
        destruct (m !! v) eqn:Hv.
        * rewrite map_size_insert_Some by eauto. lia.
        * rewrite map_size_insert_None by done. lia. }
  destruct (Hgen ∅) as (H1 & H2 & H3).
  { intros k v. by rewrite lookup_empty. }
  split; [|split].
  - intros k. rewrite H1, lookup_empty. split; [intros [?|?]; done|tauto].
  - intros k. rewrite H2, lookup_empty. tauto.
  - rewrite map_size_empty in H3. lia.
Qed.

Lemma healthyMap_from lost pieces acc n :
  index (healthyMap (fold_left (partitionStep lost) pieces acc)) n
  = index (healthyMap acc) n
    || num_in n (pieceNums
                   (List.filter (fun p => negb (index lost (PieceNum p)))
                      pieces)).
Proof.
  revert acc. induction pieces as [|p rest IH]; intros acc; cbn.
  - by rewrite orb_false_r.
  - rewrite IH. unfold partitionStep.
    destruct (index lost (PieceNum p)); cbn; [done|].
    rewrite index_insert. destruct (n =? PieceNum p), (index _ n); done.
Qed.

(** X19. The loop over the pointer's pieces splits them in two: every
    piece lands in exactly one of [healthyPieces] and [unhealthyPieces],
    the healthy ones being those whose number is not in the lost set, both
    in pointer order, so the two lists together are a rearrangement of the
    pointer's pieces.  [healthyMap] holds exactly the numbers of the
    healthy pieces, and [excludeNodeIDs] the node of every piece. *)
Theorem partitionPieces_splits lost pieces :
  let parts := partitionPieces lost pieces in
  healthyPieces parts ++ unhealthyPieces parts ≡ₚ pieces
  /\ (forall p, In p (healthyPieces parts)
                <-> In p pieces /\ index lost (PieceNum p) = false)
  /\ (forall p, In p (unhealthyPieces parts)
                <-> In p pieces /\ index lost (PieceNum p) = true)
  /\ (forall n, index (healthyMap parts) n = true
                <-> In n (pieceNums (healthyPieces parts)))
  /\ excludeNodeIDs parts = map NodeId pieces.
Proof.
  cbv zeta.
  rewrite healthyPieces_filter, unhealthyPieces_filter, excludeNodeIDs_all.
  split; [|split; [|split; [|split; [|reflexivity]]]].
  - induction pieces as [|p rest IH]; cbn; [done|].
    destruct (index lost (PieceNum p)); cbn.
    + rewrite <- Permutation_middle. by constructor.
    + by constructor.
  - intros p. rewrite filter_In, negb_true_iff. done.
  - intros p. rewrite filter_In. done.
  - intros n. unfold partitionPieces. rewrite healthyMap_from.
    cbn [healthyMap]. unfold index at 1. rewrite lookup_empty. cbn.
    apply num_in_In.
Qed.

Lemma NoDup_map_filter {A B} (f : A -> B) (keep : A -> bool) (l : list A) :
  List.NoDup (map f l) -> List.NoDup (map f (List.filter keep l)).
Proof.
  induction l as [|a rest IH]; cbn; [done|].
  intros Hnd. inversion Hnd as [|? ? Hnotin Hrest]; subst.
  destruct (keep a); cbn; [|by apply IH].
  constructor; [|by apply IH].
  intros Hin. apply Hnotin. apply in_map_iff in Hin as [x [Hfx Hx]].
  apply filter_In in Hx as [Hx _]. apply in_map_iff. eauto.
Qed.

(** X20. The healthy count used for the threshold tests,
    [len(pieces) - len(missingPieces)], is the number of pieces the loop
    keeps as healthy, provided the overlay's answer names each missing
    piece once and only pieces of the pointer, and the pointer's piece
    numbers are distinct. *)
Theorem numHealthy_counts_healthy_pieces pointer missingPieces :
  List.NoDup (pieceNums (RemotePieces (Remote pointer))) ->
  List.NoDup missingPieces ->
  (forall n, In n missingPieces ->
             In n (pieceNums (RemotePieces (Remote pointer)))) ->
  numHealthy (RemotePieces (Remote pointer)) missingPieces
  = len (healthyPieces (partsOf pointer missingPieces)).
Proof.
  intros Hnums Hmissing Hsub.
  destruct (partitionPieces_splits (sliceToSet missingPieces)
              (RemotePieces (Remote pointer))) as (Hperm & _ & Hun & _).
  fold (partsOf pointer missingPieces) in Hperm, Hun.
  assert (Hlen : length (unhealthyPieces (partsOf pointer missingPieces))
                 = length missingPieces).
  { rewrite <- (length_map PieceNum). apply Permutation_length.
    apply Stdlib.Sorting.Permutation.NoDup_Permutation; [|exact Hmissing|].
    - rewrite unhealthy_originally. unfold originallyUnhealthy.
      by apply NoDup_map_filter.
    - intros n. rewrite in_map_iff. split.
      + intros [p [<- Hp]]. apply Hun in Hp as [_ Hp].
        rewrite index_sliceToSet in Hp. by apply num_in_In.
      + intros Hn. destruct (proj1 (In_pieceNums _ _) (Hsub n Hn))
          as [p [Hp Hnum]].
        exists p. split; [done|]. apply Hun. split; [done|].
        rewrite index_sliceToSet, Hnum. by apply num_in_In. }
  apply Permutation_length in Hperm. rewrite length_app in Hperm.
  unfold numHealthy, len. lia.
Qed.

Lemma numHealthy_counts_healthy_pieces_witness :
  numHealthy (RemotePieces (Remote (Scenario.pointer 0))) [4; 5; 6; 7; 8; 9]
  = len (healthyPieces (partsOf (Scenario.pointer 0) [4; 5; 6; 7; 8; 9])).
Proof.
  apply numHealthy_counts_healthy_pieces.
  - vm_compute. repeat constructor; cbn; intuition discriminate.
  - repeat constructor; cbn; intuition discriminate.
  - intros n Hn. vm_compute in Hn |- *. tauto.
Defined.


(** ** The repaired pieces *)

Lemma collectRepaired_from hashes nodes :
  forall i acc m,
    match collectRepaired i nodes hashes acc m with
    | None =>
        exists j node,
          nodes !! j = Some (Some node) /\ (length hashes <= i + j)%nat
    | Some (repaired, _) =>
        (forall j node, nodes !! j = Some (Some node) ->
                        (i + j < length hashes)%nat)
        /\ exists new,
             repaired = acc ++ new
             /\ (forall p,
                   In p new
                   <-> exists j node hash,
                         nodes !! j = Some (Some node)
                         /\ hashes !! (i + j)%nat = Some hash
                         /\ p = {| PieceNum := int32 (Z.of_nat (i + j));
                                   NodeId := Id node; Hash := hash |})
             /\ length new = length (List.filter tookPiece nodes)
             /\ (Z.of_nat i + len nodes <= 2147483648 ->
                 List.NoDup (pieceNums new)
                 /\ Forall (fun n => Z.of_nat i <= n
                                     < Z.of_nat (i + length nodes))
                      (pieceNums new))
    end.
Proof.
  induction nodes as [|[node|] rest IH]; intros i acc m; cbn.
  - split; [intros j node Hj; by rewrite lookup_nil in Hj|].
    exists []. rewrite app_nil_r. split; [done|]. split.
    + intros p. split; [done|]. intros (j & node & hash & Hj & _).
      by rewrite lookup_nil in Hj.
    + split; [done|]. intros _. split; constructor.
  - destruct (hashes !! i) as [hash|] eqn:Hhash.
    + specialize (IH (S i)
                    (acc ++ [{| PieceNum := int32 (Z.of_nat i);
                                NodeId := Id node; Hash := hash |}])
                    (<[int32 (Z.of_nat i) := true]> m)).
      destruct (collectRepaired (S i) rest hashes _ _) as [[repaired rm]|].
      * destruct IH as (Hrange & new & -> & Hmem & Hlen & Hnums).
        split.
        { intros [|j] node' Hj.
          - apply lookup_lt_Some in Hhash. lia.
          - cbn in Hj. apply Hrange in Hj. lia. }
        exists ({| PieceNum := int32 (Z.of_nat i); NodeId := Id node;
                   Hash := hash |} :: new).
        split; [by rewrite <- app_assoc|]. split; [|split].
        { intros p. cbn [In]. rewrite Hmem. split.
          - intros [<-|(j & node' & hash' & Hj & Hh & ->)].
            + exists 0%nat, node, hash. rewrite Nat.add_0_r. done.
            + exists (S j), node', hash'.
              replace (i + S j)%nat with (S i + j)%nat by lia. done.
          - intros ([|j] & node' & hash' & Hj & Hh & ->).
            + left. rewrite Nat.add_0_r in *. cbn in Hj. congruence.
            + right. exists j, node', hash'.
              replace (S i + j)%nat with (i + S j)%nat by lia. done. }
        { cbn. by rewrite Hlen. }
        { intros Hbound. unfold len in *. cbn [length] in Hbound.
          destruct Hnums as [Hnd Hall]; [lia|].
          assert (Hi : int32 (Z.of_nat i) = Z.of_nat i).
          { apply int32_fits. unfold fits32, MinInt32, MaxInt32. lia. }
          cbn [pieceNums map PieceNum]. rewrite Hi. split.
          - constructor; [|exact Hnd]. intros Hin.
            rewrite List.Forall_forall in Hall. apply Hall in Hin. lia.
          - constructor; [cbn [length]; lia|].
            eapply List.Forall_impl; [|exact Hall]. cbn [length].
            intros n. lia. }
      * destruct IH as (j & node' & Hj & Hle).
        exists (S j), node'. split; [done|]. lia.
    + exists 0%nat, node. split; [done|].
      apply lookup_ge_None in Hhash. lia.
  - specialize (IH (S i) acc m).
    destruct (collectRepaired (S i) rest hashes acc m) as [[repaired rm]|].
    + destruct IH as (Hrange & new & -> & Hmem & Hlen & Hnums).
      split.
      { intros [|j] node' Hj; [discriminate Hj|].
        cbn in Hj. apply Hrange in Hj. lia. }
      exists new. split; [done|]. split; [|split].
      { intros p. rewrite Hmem. split.
        - intros (j & node' & hash' & Hj & Hh & ->).
          exists (S j), node', hash'.
          replace (i + S j)%nat with (S i + j)%nat by lia. done.
        - intros ([|j] & node' & hash' & Hj & Hh & ->);
            [discriminate Hj|].
          exists j, node', hash'.
          replace (S i + j)%nat with (i + S j)%nat by lia. done. }
      { done. }
      { intros Hbound. unfold len in *. cbn [length] in Hbound.
          destruct Hnums as [Hnd Hall]; [lia|].
        split; [exact Hnd|].
        eapply List.Forall_impl; [|exact Hall]. cbn [length].
        intros n. lia. }
    + destruct IH as (j & node' & Hj & Hle).
      exists (S j), node'. split; [done|]. lia.
Qed.

(** X21. When the loop over [successfulNodes] completes, the repaired
    pieces are exactly one piece per node that took a piece: its piece
    number is the node's index, its node ID the node's, its hash the one
    at the same index.  There are as many of them as nodes that took a
    piece, [repairedMap] holds exactly their numbers, and (for at most
    2^31 slots) no two of them share a piece number. *)
Theorem collectRepaired_pieces nodes hashes repaired repairedMap :
  collectRepaired 0 nodes hashes [] ∅ = Some (repaired, repairedMap) ->
  (forall p,
     In p repaired
     <-> exists i node hash,
           nodes !! i = Some (Some node)
           /\ hashes !! i = Some hash
           /\ p = {| PieceNum := int32 (Z.of_nat i); NodeId := Id node;
                     Hash := hash |})
  /\ length repaired = length (List.filter tookPiece nodes)
  /\ (forall n, index repairedMap n = true <-> In n (pieceNums repaired))
  /\ (len nodes <= 2147483648 ->
      List.NoDup (pieceNums repaired)
      /\ Forall (fun n => 0 <= n < len nodes) (pieceNums repaired)).
Proof.
  intros Hrun. pose proof (collectRepaired_from hashes nodes 0 [] ∅) as Hgen.
  rewrite Hrun in Hgen. destruct Hgen as (_ & new & -> & Hmem & Hlen & Hnums).
  cbn [app] in *. split; [exact Hmem|]. split; [exact Hlen|]. split.
  - intros n. rewrite (repairedMap_nums _ _ _ _ Hrun). apply num_in_In.
  - intros Hbound. destruct Hnums as [Hnd Hall]; [cbn; lia|].
    split; [exact Hnd|]. unfold len.
    eapply List.Forall_impl; [|exact Hall]. cbn. intros n. lia.
Qed.

Lemma collectRepaired_pieces_witness :
  let nodes := Scenario.threeUploads in
  let hashes : list (option PieceHash) :=
    [None; None; None; None; Some []; Some []; Some []; None; None; None] in
  let repaired := map Scenario.repairedPiece [4; 5; 6] in
  (forall p,
     In p repaired
     <-> exists i node hash,
           nodes !! i = Some (Some node)
           /\ hashes !! i = Some hash
           /\ p = {| PieceNum := int32 (Z.of_nat i); NodeId := Id node;
                     Hash := hash |})
  /\ length repaired = length (List.filter tookPiece nodes)
  /\ (forall n, index (<[6 := true]> (<[5 := true]> (<[4 := true]> ∅))) n
                = true
                <-> In n (pieceNums repaired))
  /\ (len nodes <= 2147483648 ->
      List.NoDup (pieceNums repaired)
      /\ Forall (fun n => 0 <= n < len nodes) (pieceNums repaired)).
Proof.
  cbv zeta.
  apply (collectRepaired_pieces Scenario.threeUploads
           [None; None; None; None; Some []; Some []; Some []; None; None;
            None]).
  vm_compute. reflexivity.
Defined.

(** X22. The loop over [successfulNodes] panics, by indexing [hashes] out
    of range, exactly when some node that took a piece sits at an index
    the hash slice does not have; in particular it never panics when the
    hash slice is at least as long as the node slice. *)
Theorem collectRepaired_panics_iff nodes hashes :
  collectRepaired 0 nodes hashes [] ∅ = None
  <-> exists i node,
        nodes !! i = Some (Some node) /\ (length hashes <= i)%nat.
Proof.
  pose proof (collectRepaired_from hashes nodes 0 [] ∅) as Hgen.
  destruct (collectRepaired 0 nodes hashes [] ∅) as [[repaired rm]|].
  - destruct Hgen as (Hrange & _). split; [done|].
    intros (i & node & Hi & Hle). apply Hrange in Hi. cbn in Hi. lia.
  - split; [|done]. intros _. exact Hgen.
Qed.


Lemma collectRepaired_short_hashes nodes hashes i node :
  nodes !! i = Some (Some node) ->
  (length hashes <= i)%nat ->
  collectRepaired 0 nodes hashes [] ∅ = None.
Proof.
  intros Hi Hshort.
  pose proof (collectRepaired_from hashes nodes 0 [] ∅) as Hgen.
  destruct (collectRepaired 0 nodes hashes [] ∅) as [[repaired rm]|];
    [|done].
  destruct Hgen as (Hrange & _). apply Hrange in Hi. cbn in Hi. lia.
Qed.

(** X23. When the upload reports a stored piece at an index for which it
    returned no hash, [Repair] panics on [hashes[i]]: it returns nothing,
    has made no commit, leaves the store as it was, and the deferred call
    still closes the reader. *)
Theorem Repair_panics_on_short_hashes
    env repairer st path pointer redundancy missingPieces
    bucketID getOrderLimits getPrivateKey newNodes putLimits putPrivateKey
    segmentReader failedPieces successfulNodes hashes i node :
  Assessed env st path pointer redundancy missingPieces ->
  NeedsRepair repairer pointer missingPieces ->
  Authorized env repairer path pointer redundancy missingPieces bucketID
    getOrderLimits getPrivateKey newNodes putLimits putPrivateKey ->
  ec_Get env getOrderLimits getPrivateKey redundancy (SegmentSize pointer) path
  = (segmentReader, failedPieces, None) ->
  ec_Repair env putLimits putPrivateKey redundancy segmentReader
    (timeout repairer) path
  = inr (successfulNodes, hashes) ->
  successfulNodes !! i = Some (Some node) ->
  (length hashes <= i)%nat ->
  let r := Repair env repairer path (initial st) in
  outcome r = None
  /\ existsb is_commit (trace (fst r)) = false
  /\ existsb is_close (trace (fst r)) = true
  /\ store (fst r) = st.
Proof.
  intros Has Hneeds Hauth Hdown Hup Hi Hshort.
  assert (Hpanic : collectRepaired 0 successfulNodes hashes [] ∅ = None).
  { by eapply collectRepaired_short_hashes. }
  cbv zeta. run_assessed Has. run_needed Hneeds. run_authorized Hauth.
  answer Hdown.
  audit_update; answer Hup; answer Hpanic; done.
Qed.

Lemma Repair_panics_on_short_hashes_witness :
  let env := withUpload (fun _ _ _ _ _ _ => inr (Scenario.oneUpload, []))
               (Scenario.sixLost [] []) in
  let r := Repair env Scenario.repairer Scenario.path
             (initial (Scenario.st 0)) in
  outcome r = None
  /\ existsb is_commit (trace (fst r)) = false
  /\ existsb is_close (trace (fst r)) = true
  /\ store (fst r) = Scenario.st 0.
Proof.
  cbv zeta.
  eapply (Repair_panics_on_short_hashes
            (withUpload (fun _ _ _ _ _ _ => inr (Scenario.oneUpload, []))
               (Scenario.sixLost [] []))
            Scenario.repairer (Scenario.st 0) Scenario.path
            (Scenario.pointer 0) Scenario.redundancy [4; 5; 6; 7; 8; 9]
            _ _ _ _ _ _ _ _ _ _ 4%nat).
  - constructor; reflexivity.
  - constructor; vm_compute; discriminate.
  - constructor.
    + vm_compute; reflexivity.
    + vm_compute; reflexivity.
    + vm_compute; reflexivity.
    + vm_compute; reflexivity.
  - vm_compute; reflexivity.
  - vm_compute; reflexivity.
  - reflexivity.
  - cbn. lia.
Defined.

(** ** Paths and bucket IDs *)

Lemma SplitPath_length path :
  length (SplitPath path) = S (countSlashes path).
Proof.
  induction path as [|c rest IH]; cbn; [done|].
  destruct (Ascii.eqb c slash); cbn; [by rewrite IH|].
  destruct (SplitPath rest) as [|comp comps] eqn:Hsplit; [done|].
  cbn in *. lia.
Qed.

(** X24. [createBucketID] succeeds exactly on the paths that contain at
    least two slashes; the empty path and a path without a second slash
    are refused. *)
Theorem createBucketID_needs_two_slashes path :
  (exists bucketID, createBucketID path = inr bucketID)
  <-> (2 <= countSlashes path)%nat.
Proof.
  unfold createBucketID, len. rewrite SplitPath_length.
  destruct (Z.ltb_spec (Z.of_nat (S (countSlashes path))) 3); split.
  - intros [b Hb]. discriminate Hb.
  - lia.
  - lia.
  - eauto.
Qed.

Lemma SplitPath_slash_free comp :
  countSlashes comp = 0%nat -> SplitPath comp = [comp].
Proof.
  induction comp as [|c rest IH]; cbn; [done|].
  destruct (Ascii.eqb c slash); cbn; [done|].
  intros Hfree. by rewrite IH.
Qed.

Lemma SplitPath_append comp rest :
  countSlashes comp = 0%nat ->
  SplitPath (comp ++ String slash rest)%string = comp :: SplitPath rest.
Proof.
  induction comp as [|c comp' IH]; simpl.
  - intros _. reflexivity.
  - destruct (Ascii.eqb c slash) eqn:Hc; simpl; [done|].
    intros Hfree. by rewrite IH.
Qed.

Lemma SplitPath_joinAll comps :
  comps <> [] ->
  Forall (fun comp => countSlashes comp = 0%nat) comps ->
  SplitPath (joinAll comps) = comps.
Proof.
  induction comps as [|comp rest IH]; [done|].
  intros _ Hfree. inversion Hfree as [|? ? Hcomp Hrest]; subst.
  destruct rest as [|next rest'].
  - cbn. by apply SplitPath_slash_free.
  - cbn [joinAll]. rewrite SplitPath_append by done.
    f_equal. by apply IH.
Qed.

(** X25. For a path made of slash-free components, at least three of
    them, the bucket ID is the first component, a slash, and the third
    component: the second component and everything after the third have
    no influence on it. *)
Theorem createBucketID_of_components first second third rest :
  Forall (fun comp => countSlashes comp = 0%nat)
    (first :: second :: third :: rest) ->
  createBucketID (joinAll (first :: second :: third :: rest))
  = inr (list_byte_of_string (first ++ String slash third)%string).
Proof.
  intros Hfree.
  apply (createBucketID_joins _ first second third rest).
  by apply SplitPath_joinAll.
Qed.

Lemma createBucketID_of_components_witness :
  createBucketID "project/s0/bucket/some/object"
  = inr (list_byte_of_string "project/bucket").
Proof.
  apply (createBucketID_of_components "project" "s0" "bucket"
           ["some"; "object"]%string).
  repeat constructor.
Defined.

(** Splitting a path at its slashes and joining the components with
    slashes gives the path back, and no component contains a slash. *)
Lemma SplitPath_round_trip path :
  joinAll (SplitPath path) = path
  /\ Forall (fun comp => countSlashes comp = 0%nat) (SplitPath path).
Proof.
  induction path as [|c rest IH]; simpl.
  - split; [done|]. by repeat constructor.
  - destruct IH as [IHjoin IHfree].
    destruct (SplitPath rest) as [|comp comps] eqn:Hs.
    { by destruct (SplitPath_nonempty rest). }
    destruct (Ascii.eqb c slash) eqn:Hc.
    + apply Ascii.eqb_eq in Hc as ->. split.
      * change (String slash (joinAll (comp :: comps)) = String slash rest).
        by rewrite IHjoin.
      * constructor; [done|exact IHfree].
    + apply Forall_cons in IHfree as [Hcomp Hcomps]. split.
      * rewrite <- IHjoin. by destruct comps.
      * constructor; [|exact Hcomps]. simpl. by rewrite Hc.
Qed.

(** ** The segment age and the class of a repair *)

Lemma Sub_antitone t u u' : u <= u' -> Sub t u' <= Sub t u.
Proof.
  intros Hle. unfold Sub, Before, minDuration, maxDuration, MinInt64, MaxInt64.
  repeat match goal with
         | |- context [?a <=? ?b] => destruct (Z.leb_spec a b)
         | |- context [?a <? ?b] => destruct (Z.ltb_spec a b)
         end; cbn; lia.
Qed.

(** X26. The segment age is the smaller of the time since the last
    repair and the time since creation (both saturated as [time.Since]
    saturates), so it exceeds neither. *)
Theorem segmentAge_is_smaller_elapsed now pointer :
  segmentAge now pointer
  = Z.min (Since now (LastRepaired pointer)) (Since now (CreationDate pointer)).
Proof.
  unfold segmentAge, Since, Before.
  destruct (Z.ltb_spec (CreationDate pointer) (LastRepaired pointer)).
  - rewrite Z.min_l; [done|]. apply Sub_antitone. lia.
  - rewrite Z.min_r; [done|]. by apply Sub_antitone.
Qed.


(** ** The meters of a repair that gets to the commit *)





